(** * The LK kernel timer subsystem (kernel/timer.c)

    A shallow embedding of [kernel/timer.c]: the sorted queue of pending
    timers, the lifecycle calls ([timer_initialize], [timer_set_oneshot],
    [timer_set_periodic], [timer_cancel]) and the interrupt-time dispatcher
    [timer_tick], followed by the properties the specification states about
    them.

    Timer objects live in caller-owned memory and are named by their
    address; the queue threads them through an intrusive list node.  The
    state is passed explicitly through a small monad whose outcomes
    distinguish a normal return, a kernel panic, a step the C program
    gives no meaning to (a wild pointer, a list left with a dangling link)
    and a loop that has not finished within the given fuel.  Tracing and
    statistics ([LTRACEF], [THREAD_STATS_INC], [KEVLOG_TIMER_CALL]) have no
    effect on the timer state and are left out. *)

From stdpp Require Import base numbers option list sorting gmap.

Local Open Scope N_scope.

(** ** Data model *)

(** The type [lk_time_t] is declared in a header outside kernel/timer.c,
    which prints its values with [%lu] and casts them to [uint]: an
    unsigned C integer type.  Its width is left to the build
    ([LK_TIME_BITS] below).  A value is kept as the number it stands for,
    and the sums kernel/timer.c computes on it wrap around, as C unsigned
    arithmetic does ([time_add] below). *)
Abbreviation lk_time_t := N (only parsing).

(** Pointers to timers, callbacks and callback arguments are addresses;
    [NULL] is address zero. *)
Abbreviation addr := N (only parsing).
Definition NULL : addr := 0.

(** Modelled from the spec: the macros [TIME_GT] and [TIME_LT], declared
    with [lk_time_t].  The specification reads [TIME_GT (a, b)] as "[a] is
    strictly greater than [b]" and [TIME_LT (now, t)] as "[t] is still in
    the future": the usual order on ticks. *)
Definition TIME_GT (a b : lk_time_t) : bool := b <? a.
Definition TIME_LT (a b : lk_time_t) : bool := a <? b.

(** The reschedule hint a handler returns. *)
Inductive handler_return := INT_NO_RESCHEDULE | INT_RESCHEDULE.

Global Instance handler_return_eq_dec : EqDecision handler_return.
Proof. solve_decision. Defined.

(** Modelled from the spec: [struct timer] of kernel/timer.h, with the
    fields kernel/timer.c reads and writes.  Of the intrusive [struct
    list_node] of list.h the field [node] keeps the one fact the timer code
    asks of it, [list_in_list (&timer->node)]: whether the node is linked.
    The order of the linked nodes is the sequence [timer_queue] of the
    state below. *)
Record timer_t := mk_timer {
  magic : N;
  node : bool;
  scheduled_time : lk_time_t;
  periodic_time : lk_time_t;
  callback : addr;
  arg : addr
}.

Definition list_in_list (tm : timer_t) : bool := node tm.

(** Calls into the platform timer driver.  The handler is always
    [timer_tick] and its argument always [NULL], so a call is recorded by
    its delay or interval alone. *)
Inductive platform_call :=
  | platform_set_oneshot_timer (delay : lk_time_t)
  | platform_set_periodic_timer (interval : lk_time_t)
  | platform_stop_timer.

(** The state the timer code reads and writes: the timer objects in memory,
    the global [timer_queue] (head first), the [clock] that
    [current_time ()] reads, the nesting depth of the critical section and the
    calls made to the platform driver so far (latest first). *)
Record kstate := mk_kstate {
  timers : gmap N timer_t;
  timer_queue : list N;
  clock : lk_time_t;
  critical_section_count : nat;
  platform_calls : list platform_call
}.

Definition set_timers (f : gmap N timer_t → gmap N timer_t) (s : kstate) : kstate :=
  {| timers := f (timers s); timer_queue := timer_queue s;
     clock := clock s;
     critical_section_count := critical_section_count s;
     platform_calls := platform_calls s |}.

Definition set_timer_queue (f : list N → list N) (s : kstate) : kstate :=
  {| timers := timers s; timer_queue := f (timer_queue s);
     clock := clock s;
     critical_section_count := critical_section_count s;
     platform_calls := platform_calls s |}.

Definition set_critical_section_count (f : nat → nat) (s : kstate) : kstate :=
  {| timers := timers s; timer_queue := timer_queue s;
     clock := clock s;
     critical_section_count := f (critical_section_count s);
     platform_calls := platform_calls s |}.

Definition platform (c : platform_call) (s : kstate) : kstate :=
  {| timers := timers s; timer_queue := timer_queue s;
     clock := clock s;
     critical_section_count := critical_section_count s;
     platform_calls := c :: platform_calls s |}.

(** ** Outcomes and the kernel monad *)

Inductive outcome (A : Type) : Type :=
  | Returns (a : A) (s : kstate)
  | Panic (s : kstate)
  | Fault
  | OutOfFuel.
Arguments Returns {A} a s.
Arguments Panic {A} s.
Arguments Fault {A}.
Arguments OutOfFuel {A}.

Definition K (A : Type) : Type := kstate → outcome A.

Definition ret {A} (a : A) : K A := λ s, Returns a s.

Definition bind {A B} (m : K A) (k : A → K B) : K B :=
  λ s, match m s with
       | Returns a s' => k a s'
       | Panic s' => Panic s'
       | Fault => Fault
       | OutOfFuel => OutOfFuel
       end.

Declare Scope kernel_scope.
Delimit Scope kernel_scope with K.
Notation "x <- m ;; k" := (bind m (λ x, k))
  (at level 100, m at level 99, k at level 200, only parsing) : kernel_scope.
Notation "m ;; k" := (bind m (λ _, k))
  (at level 100, k at level 200, right associativity, only parsing) : kernel_scope.
Local Open Scope kernel_scope.

Definition get : K kstate := λ s, Returns s s.
Definition modify (f : kstate → kstate) : K unit := λ s, Returns tt (f s).
Definition panic {A} : K A := λ s, Panic s.
Definition when (b : bool) (m : K unit) : K unit := if b then m else ret tt.

(** [*timer] read and written through a pointer; a pointer that holds no
    timer object is a wild access. *)
Definition load (timer : addr) : K timer_t :=
  λ s, match timers s !! timer with
       | Some tm => Returns tm s
       | None => Fault
       end.

Definition store (timer : addr) (tm : timer_t) : K unit :=
  λ s, match timers s !! timer with
       | Some _ => Returns tt (set_timers <[timer := tm]> s)
       | None => Fault
       end.

(** Modelled from the spec: the critical section of kernel/thread.h, a
    nesting count that [in_critical_section] tests. *)
Definition enter_critical_section : K unit := modify (set_critical_section_count S).
Definition exit_critical_section : K unit := modify (set_critical_section_count pred).
Definition in_critical_section : K bool :=
  λ s, Returns (bool_decide (0 < critical_section_count s)%nat) s.

(** A callback receives the timer, the firing time and its argument, and
    may do to the kernel state whatever kernel code can do. *)
Definition timer_callback : Type := addr → lk_time_t → addr → K handler_return.

(** What the build fixes: whether the platform timer can be reprogrammed,
    whether [DEBUG_ASSERT] is compiled in, the validity tag, and the width
    in bits of [lk_time_t]. *)
Record config := mk_config {
  PLATFORM_HAS_DYNAMIC_TIMER : bool;
  DEBUG_ASSERTS : bool;
  TIMER_MAGIC : N;
  LK_TIME_BITS : N
}.

(** [a + b] on [lk_time_t]: the sum modulo [2 ^ LK_TIME_BITS]. *)
Definition time_add (C : config) (a b : lk_time_t) : lk_time_t :=
  (a + b) mod 2 ^ LK_TIME_BITS C.

(** What the rest of the kernel supplies: the functions that callback
    pointers refer to, and the scheduler's quantum hook. *)
Record kernel := mk_kernel {
  code : addr → option timer_callback;
  thread_timer_tick : K handler_return
}.

(** ** The program *)

(** Modelled from the spec: the list primitives of list.h, on the sequence
    of linked timers.  [list_peek_head_type] yields the head entry, or
    nothing for the empty list ([NULL] in the source: no object lives at
    address zero); [list_delete] takes a node out of the list it is in,
    wherever it stands, and clears its links. *)
Definition list_peek_head_type : K (option addr) :=
  λ s, Returns (head (timer_queue s)) s.

Definition with_node (b : bool) (tm : timer_t) : timer_t :=
  {| magic := magic tm; node := b; scheduled_time := scheduled_time tm;
     periodic_time := periodic_time tm; callback := callback tm; arg := arg tm |}.

Definition with_scheduled_time (t : lk_time_t) (tm : timer_t) : timer_t :=
  {| magic := magic tm; node := node tm; scheduled_time := t;
     periodic_time := periodic_time tm; callback := callback tm; arg := arg tm |}.

Definition list_delete (timer : addr) : K unit :=
  tm <- load timer ;;
  store timer (with_node false tm) ;;
  modify (set_timer_queue (filter (λ e, e ≠ timer))).

Definition current_time : K lk_time_t := λ s, Returns (clock s) s.

Definition platform_call_now (c : platform_call) : K unit := modify (platform c).

(** The scan of [insert_timer_in_queue]: [list_for_every_entry] walks the
    queue from the head; at the first entry scheduled strictly later than
    the timer, [list_add_before] puts the timer in front of it; past the
    last entry, [list_add_tail] appends it.  Each entry is read through its
    pointer. *)
Fixpoint insert_scan (ts : gmap N timer_t) (timer : addr) (sched : lk_time_t)
    (q : list N) : option (list N) :=
  match q with
  | [] => Some [timer]
  | entry :: rest =>
      match ts !! entry with
      | None => None
      | Some e =>
          if TIME_GT (scheduled_time e) sched then Some (timer :: entry :: rest)
          else match insert_scan ts timer sched rest with
               | Some q' => Some (entry :: q')
               | None => None
               end
      end
  end.

Definition insert_timer_in_queue (timer : addr) : K unit :=
  tm <- load timer ;;
  s <- get ;;
  match insert_scan (timers s) timer (scheduled_time tm) (timer_queue s) with
  | Some q' =>
      store timer (with_node true tm) ;;
      modify (set_timer_queue (λ _, q'))
  | None => λ _, Fault
  end.

Section Timer.

Context (C : config) (E : kernel).

(** Modelled from the spec: [DEBUG_ASSERT] of assert.h, a fatal error when
    the condition fails in a build that has the assertions compiled in. *)
Definition DEBUG_ASSERT (b : bool) : K unit :=
  if DEBUG_ASSERTS C && negb b then panic else ret tt.

(** Modelled from the spec: the initializer [TIMER_INITIAL_VALUE] of
    kernel/timer.h, which "sets validity tag, clears linkage, zeroes
    schedule/period/callback"; a C initializer leaves every member it does
    not name zero, the argument included. *)
Definition TIMER_INITIAL_VALUE : timer_t :=
  {| magic := TIMER_MAGIC C; node := false; scheduled_time := 0;
     periodic_time := 0; callback := NULL; arg := NULL |}.

(** [timer_initialize] overwrites the whole object, list node included,
    and looks at nothing.  On a timer that is in the queue the C list is
    left with neighbours that point to a node whose own links are gone,
    which no sequence of timers describes: the model stops there. *)
Definition timer_initialize (timer : addr) : K unit :=
  λ s, if decide (timer ∈ timer_queue s) then Fault
       else store timer TIMER_INITIAL_VALUE s.

Definition timer_set (timer : addr) (delay period : lk_time_t)
    (callback arg : addr) : K unit :=
  tm <- load timer ;;
  DEBUG_ASSERT (magic tm =? TIMER_MAGIC C) ;;
  (if list_in_list tm then panic else ret tt) ;;
  now <- current_time ;;
  store timer {| magic := magic tm; node := node tm;
                 scheduled_time := time_add C now delay;
                 periodic_time := period;
                 callback := callback; arg := arg |} ;;
  enter_critical_section ;;
  insert_timer_in_queue timer ;;
  (if PLATFORM_HAS_DYNAMIC_TIMER C then
     hd <- list_peek_head_type ;;
     when (bool_decide (hd = Some timer))
       (platform_call_now (platform_set_oneshot_timer delay))
   else ret tt) ;;
  exit_critical_section.

Definition timer_set_oneshot (timer : addr) (delay : lk_time_t)
    (callback arg : addr) : K unit :=
  let delay := if delay =? 0 then 1 else delay in
  timer_set timer delay 0 callback arg.

Definition timer_set_periodic (timer : addr) (period : lk_time_t)
    (callback arg : addr) : K unit :=
  let period := if period =? 0 then 1 else period in
  timer_set timer period period callback arg.

Definition timer_cancel (timer : addr) : K unit :=
  tm <- load timer ;;
  DEBUG_ASSERT (magic tm =? TIMER_MAGIC C) ;;
  enter_critical_section ;;
  oldhead <- (if PLATFORM_HAS_DYNAMIC_TIMER C then list_peek_head_type
              else ret None) ;;
  when (list_in_list tm) (list_delete timer) ;;
  tm <- load timer ;;
  store timer {| magic := magic tm; node := node tm;
                 scheduled_time := scheduled_time tm; periodic_time := 0;
                 callback := NULL; arg := NULL |} ;;
  (if PLATFORM_HAS_DYNAMIC_TIMER C then
     newhead <- list_peek_head_type ;;
     match newhead with
     | None => platform_call_now platform_stop_timer
     | Some nh =>
         if bool_decide (newhead ≠ oldhead) then
           e <- load nh ;;
           now <- current_time ;;
           let delay := if TIME_LT (scheduled_time e) now then 0
                        else scheduled_time e - now in
           platform_call_now (platform_set_oneshot_timer delay)
         else ret tt
     end
   else ret tt) ;;
  exit_critical_section.

(** A call through a function pointer. *)
Definition call (f : addr) (timer : addr) (now : lk_time_t) (a : addr)
    : K handler_return :=
  match code E f with
  | Some cb => cb timer now a
  | None => λ _, Fault
  end.

(** What a dispatch did, for the statements below only: the callbacks
    fired, each with the state it was entered in and the hint it returned,
    and the hint of the scheduler hook.  The trace is returned next to the
    result and never read by the program. *)
Inductive tick_event :=
  | Fired (timer : addr) (entered : kstate) (hint : handler_return)
  | SchedulerTick (hint : handler_return).

Definition event_hint (ev : tick_event) : handler_return :=
  match ev with Fired _ _ h => h | SchedulerTick h => h end.

(** The tail of the loop body of [timer_tick]: a periodic timer that its
    callback has neither requeued nor cancelled goes back into the queue. *)
Definition requeue_periodic (now : lk_time_t) (periodic : bool) (timer : addr)
    : K unit :=
  tm <- load timer ;;
  if periodic && negb (list_in_list tm) && (0 <? periodic_time tm) then
    store timer (with_scheduled_time (time_add C now (periodic_time tm)) tm) ;;
    insert_timer_in_queue timer
  else ret tt.

(** The [for (;;)] loop of [timer_tick], [fuel] bounding its iterations.
    The head that [list_peek_head_type] has found is not [NULL], which
    leaves the tag as the content of the assertion on it. *)
Fixpoint timer_tick_loop (fuel : nat) (now : lk_time_t) (r : handler_return)
    : K (handler_return * list tick_event) :=
  match fuel with
  | O => λ _, OutOfFuel
  | S fuel' =>
      hd <- list_peek_head_type ;;
      match hd with
      | None => ret (r, [])
      | Some timer =>
          tm <- load timer ;;
          if TIME_LT now (scheduled_time tm) then ret (r, [])
          else
            DEBUG_ASSERT (magic tm =? TIMER_MAGIC C) ;;
            list_delete timer ;;
            tm <- load timer ;;
            let periodic := 0 <? periodic_time tm in
            entered <- get ;;
            hint <- call (callback tm) timer now (arg tm) ;;
            let r := if decide (hint = INT_RESCHEDULE) then INT_RESCHEDULE
                     else r in
            requeue_periodic now periodic timer ;;
            rest <- timer_tick_loop fuel' now r ;;
            ret (rest.1, Fired timer entered hint :: rest.2)
      end
  end.

Definition timer_tick (fuel : nat) (a : addr) (now : lk_time_t)
    : K (handler_return * list tick_event) :=
  drained <- timer_tick_loop fuel now INT_NO_RESCHEDULE ;;
  let '(r, fired) := drained in
  result <-
    (if PLATFORM_HAS_DYNAMIC_TIMER C then
       hd <- list_peek_head_type ;;
       match hd with
       | Some timer =>
           tm <- load timer ;;
           DEBUG_ASSERT (TIME_GT (scheduled_time tm) now) ;;
           let delay := scheduled_time tm - now in
           platform_call_now (platform_set_oneshot_timer delay) ;;
           ret (r, fired)
       | None => ret (r, fired)
       end
     else
       hint <- thread_timer_tick E ;;
       ret (if decide (hint = INT_RESCHEDULE) then INT_RESCHEDULE else r,
            fired ++ [SchedulerTick hint])) ;;
  ics <- in_critical_section ;;
  DEBUG_ASSERT ics ;;
  ret result.

Definition timer_init : K unit :=
  modify (set_timer_queue (λ _, [])) ;;
  platform_call_now (platform_set_periodic_timer 10).

End Timer.

(** ** Invariants of the queue *)

(** The deadline of a queue entry, read through its pointer. *)
Definition deadline (ts : gmap N timer_t) (e : addr) : lk_time_t :=
  match ts !! e with
  | Some tm => scheduled_time tm
  | None => 0
  end.

(** Every queue entry points to a timer object. *)
Definition queue_mapped (ts : gmap N timer_t) (q : list N) : Prop :=
  Forall (λ e, is_Some (ts !! e)) q.

(** The queue is in ascending order of deadline. *)
Definition queue_sorted (ts : gmap N timer_t) (q : list N) : Prop :=
  StronglySorted (λ a b, deadline ts a ≤ deadline ts b) q.

(** The link state of every timer agrees with the queue, which holds no
    timer twice. *)
Record queue_wf (s : kstate) : Prop := mk_queue_wf {
  wf_nodup : NoDup (timer_queue s);
  wf_mapped : queue_mapped (timers s) (timer_queue s);
  wf_linked : ∀ t tm, timers s !! t = Some tm →
                (list_in_list tm = true ↔ t ∈ timer_queue s)
}.

(** The fields [timer_cancel] leaves behind. *)
Definition cancelled (tm : timer_t) : timer_t :=
  {| magic := magic tm; node := false; scheduled_time := scheduled_time tm;
     periodic_time := 0; callback := NULL; arg := NULL |}.

Definition with_platform_calls (calls : list platform_call) (s : kstate) : kstate :=
  {| timers := timers s; timer_queue := timer_queue s; clock := clock s;
     critical_section_count := critical_section_count s;
     platform_calls := calls |}.

(** The state [list_delete] leaves: the timer unlinked, its node clear. *)
Definition popped (timer : addr) (tm : timer_t) (s : kstate) : kstate :=
  set_timer_queue (filter (λ e, e ≠ timer))
    (set_timers <[timer := with_node false tm]> s).

(** A firing recorded in the trace is genuine: the timer was due, it was
    already unlinked in the state its callback was entered in, and the
    callback, called through the timer's pointer with the timer, the firing
    time and the timer's argument, returned the recorded hint. *)
Definition genuine_firing (E : kernel) (now : lk_time_t) (ev : tick_event) : Prop :=
  match ev with
  | Fired timer entered hint =>
      (timer ∉ timer_queue entered) ∧
      ∃ tm s1,
        timers entered !! timer = Some tm ∧
        list_in_list tm = false ∧
        scheduled_time tm ≤ now ∧
        call E (callback tm) timer now (arg tm) entered = Returns hint s1
  | SchedulerTick _ => False
  end.

(** Nothing in the queue is due: it is empty or its head lies in the
    future. *)
Definition drained (now : lk_time_t) (s : kstate) : Prop :=
  match head (timer_queue s) with
  | None => True
  | Some timer => ∃ tm, timers s !! timer = Some tm ∧ now < scheduled_time tm
  end.

(** ** Dispatch invariants and callbacks that use the timer API *)

(** The number of queue entries due at [now]. *)
Definition due_count (now : lk_time_t) (s : kstate) : nat :=
  length (filter (λ e, deadline (timers s) e ≤ now) (timer_queue s)).


(** What a callback may ask of the timer subsystem. *)
Inductive api_call :=
  | call_timer_set_oneshot (timer : addr) (delay : lk_time_t) (callback arg : addr)
  | call_timer_set_periodic (timer : addr) (period : lk_time_t) (callback arg : addr)
  | call_timer_cancel (timer : addr)
  | time_passes (ticks : lk_time_t).

(** The clock is an [lk_time_t] and wraps around as one. *)
Definition advance_clock (C : config) (ticks : lk_time_t) (s : kstate) : kstate :=
  {| timers := timers s; timer_queue := timer_queue s;
     clock := time_add C (clock s) ticks;
     critical_section_count := critical_section_count s;
     platform_calls := platform_calls s |}.

Definition run_api_call (C : config) (c : api_call) : K unit :=
  match c with
  | call_timer_set_oneshot timer delay cb a => timer_set_oneshot C timer delay cb a
  | call_timer_set_periodic timer period cb a => timer_set_periodic C timer period cb a
  | call_timer_cancel timer => timer_cancel C timer
  | time_passes ticks => modify (advance_clock C ticks)
  end.

Fixpoint run_api_calls (C : config) (cs : list api_call) : K unit :=
  match cs with
  | [] => ret tt
  | c :: cs => run_api_call C c ;; run_api_calls C cs
  end.

(** A callback that touches the timer state through the timer API only:
    what it does is some sequence of API calls, chosen from its arguments
    and the state it is entered in, while time may pass. *)
Definition api_driven (C : config) (cb : timer_callback) : Prop :=
  ∃ body : addr → lk_time_t → addr → kstate → list api_call * handler_return,
    ∀ timer now a s,
      cb timer now a s
      = (run_api_calls C (body timer now a s).1 ;; ret (body timer now a s).2) s.





(** ** A sample kernel *)

(** Two builds that differ in the platform timer only; [lk_time_t] has 64
    bits. *)
Definition fixed_tick_build : config :=
  {| PLATFORM_HAS_DYNAMIC_TIMER := false; DEBUG_ASSERTS := true;
     TIMER_MAGIC := 1953066354; LK_TIME_BITS := 64 |}.

Definition dynamic_build : config :=
  {| PLATFORM_HAS_DYNAMIC_TIMER := true; DEBUG_ASSERTS := true;
     TIMER_MAGIC := 1953066354; LK_TIME_BITS := 64 |}.

(** Four callbacks: one that asks for nothing, one that asks for a
    reschedule, one that cancels its own timer and one that arms its own
    timer again; and a scheduler hook that asks for nothing. *)
Definition sample_code (C : config) (f : addr) : option timer_callback :=
  if f =? 100 then Some (λ _ _ _, ret INT_NO_RESCHEDULE)
  else if f =? 101 then Some (λ _ _ _, ret INT_RESCHEDULE)
  else if f =? 102 then
    Some (λ timer _ _, run_api_calls C [call_timer_cancel timer] ;;
                       ret INT_RESCHEDULE)
  else if f =? 103 then
    Some (λ timer _ a, run_api_calls C [call_timer_set_oneshot timer 5 103 a] ;;
                       ret INT_NO_RESCHEDULE)
  else None.

Definition sample_kernel (C : config) : kernel :=
  {| code := sample_code C; thread_timer_tick := ret INT_NO_RESCHEDULE |}.

(** At time 10: a periodic timer due at 9 and a one-shot timer due at 10
    in the queue, an unlinked timer with a deadline of 10 and a timer that
    was initialized and never armed. *)
Definition periodic_timer : timer_t :=
  {| magic := 1953066354; node := true; scheduled_time := 9;
     periodic_time := 3; callback := 101; arg := 0 |}.

Definition oneshot_timer : timer_t :=
  {| magic := 1953066354; node := true; scheduled_time := 10;
     periodic_time := 0; callback := 100; arg := 0 |}.

Definition unlinked_timer : timer_t :=
  {| magic := 1953066354; node := false; scheduled_time := 10;
     periodic_time := 0; callback := 100; arg := 0 |}.

Definition armed : kstate :=
  {| timers := <[1 := oneshot_timer]> (<[2 := periodic_timer]>
                 (<[3 := unlinked_timer]>
                    (<[4 := TIMER_INITIAL_VALUE fixed_tick_build]> ∅)));
     timer_queue := [2; 1];
     clock := 10;
     critical_section_count := 1;
     platform_calls := [] |}.

(** The last tick a 64-bit [lk_time_t] can hold. *)
Definition last_tick : lk_time_t := 18446744073709551615.

(** At the last tick: a periodic timer with a period of one tick in the
    queue, its deadline already wrapped to 0, and a timer that was
    initialized and never armed. *)
Definition wrapped_timer : timer_t :=
  {| magic := 1953066354; node := true; scheduled_time := 0;
     periodic_time := 1; callback := 100; arg := 0 |}.

Definition at_wrap : kstate :=
  {| timers := <[1 := wrapped_timer]>
                 (<[4 := TIMER_INITIAL_VALUE fixed_tick_build]> ∅);
     timer_queue := [1];
     clock := last_tick;
     critical_section_count := 1;
     platform_calls := [] |}.

(** Before [timer_init]: one timer object in memory, not yet initialized. *)
Definition uninitialized : kstate :=
  {| timers := <[4 := mk_timer 0 false 0 0 0 0]> ∅;
     timer_queue := [];
     clock := 0;
     critical_section_count := 0;
     platform_calls := [] |}.

(** Right after [timer_init] and the [timer_initialize] of that timer, on
    the dynamic-timer build. *)
Definition booted : kstate :=
  {| timers := <[4 := TIMER_INITIAL_VALUE dynamic_build]> ∅;
     timer_queue := [];
     clock := 0;
     critical_section_count := 0;
     platform_calls := [platform_set_periodic_timer 10] |}.

(** The scenarios of the specification: two timers in memory that hold
    garbage, the clock at zero, and a dispatch that reports the timers it
    fired. *)
Definition blank : kstate :=
  {| timers := <[1 := mk_timer 0 false 0 0 0 0]>
                 (<[2 := mk_timer 0 false 0 0 0 0]> ∅);
     timer_queue := [];
     clock := 0;
     critical_section_count := 1;
     platform_calls := [] |}.

Definition dispatch (C : config) (now : lk_time_t) : K (list addr) :=
  s <- get ;;
  modify (advance_clock C (now - clock s)) ;;
  r <- timer_tick C (sample_kernel C) 8 NULL now ;;
  ret (omap (λ ev, match ev with Fired t _ _ => Some t | _ => None end) r.2).

Definition observe {A} (o : outcome A)
    : option (A * list (addr * lk_time_t)) :=
  match o with
  | Returns a s => Some (a, (λ e, (e, deadline (timers s) e)) <$> timer_queue s)
  | _ => None
  end.

Definition scenario_periodic : K (list addr * list addr * list addr) :=
  timer_initialize fixed_tick_build 1 ;;
  timer_initialize fixed_tick_build 2 ;;
  timer_set_oneshot fixed_tick_build 1 5 100 NULL ;;
  timer_set_periodic fixed_tick_build 2 3 101 NULL ;;
  at3 <- dispatch fixed_tick_build 3 ;;
  at5 <- dispatch fixed_tick_build 5 ;;
  at6 <- dispatch fixed_tick_build 6 ;;
  ret (at3, at5, at6).

Definition scenario_ties : K (list addr * list addr) :=
  timer_initialize fixed_tick_build 1 ;;
  timer_initialize fixed_tick_build 2 ;;
  timer_set_oneshot fixed_tick_build 1 10 100 NULL ;;
  timer_set_oneshot fixed_tick_build 2 10 100 NULL ;;
  s <- get ;;
  at10 <- dispatch fixed_tick_build 10 ;;
  ret (timer_queue s, at10).

Definition scenario_self_cancel : K (list addr) :=
  timer_initialize fixed_tick_build 1 ;;
  timer_set_periodic fixed_tick_build 1 3 102 NULL ;;
  dispatch fixed_tick_build 3.

Definition scenario_self_rearm : K (list addr) :=
  timer_initialize fixed_tick_build 1 ;;
  timer_set_periodic fixed_tick_build 1 3 103 NULL ;;
  dispatch fixed_tick_build 3.

(** ** Invariants and observations for the whole lifecycle *)

(** The queue is well formed and sorted. *)
Definition queue_ok (s : kstate) : Prop :=
  queue_wf s ∧ queue_sorted (timers s) (timer_queue s).

(** No timer object reads as linked. *)
Definition all_unlinked (s : kstate) : Prop :=
  ∀ t tm, timers s !! t = Some tm → list_in_list tm = false.

(** An action that, when it returns, has kept the queue well formed and
    sorted. *)
Definition keeps_queue (m : K unit) : Prop :=
  ∀ s u s', queue_ok s → m s = Returns u s' → queue_ok s'.

(** The timers whose callbacks a dispatch has fired, in the order of
    firing. *)
Definition fired_timers (evs : list tick_event) : list addr :=
  omap (λ ev, match ev with
              | Fired timer _ _ => Some timer
              | SchedulerTick _ => None
              end) evs.

(** A callback that returns a hint and leaves the kernel state as it is. *)
Definition quiet (cb : timer_callback) : Prop :=
  ∀ timer now a s, ∃ hint, cb timer now a s = Returns hint s.

(** Every linked timer carries the validity tag and points to a quiet
    callback, and if it is due at [now], adding its period to [now] does
    not wrap. *)
Definition linked_timers_quiet (C : config) (E : kernel) (now : lk_time_t)
    (s : kstate) : Prop :=
  ∀ t tm, timers s !! t = Some tm → list_in_list tm = true →
    magic tm = TIMER_MAGIC C ∧
    (∃ cb, code E (callback tm) = Some cb ∧ quiet cb) ∧
    (scheduled_time tm ≤ now → now + periodic_time tm < 2 ^ LK_TIME_BITS C).

(** The queue entries due at [now], in queue order. *)
Definition due_entries (now : lk_time_t) (s : kstate) : list addr :=
  filter (λ e, deadline (timers s) e ≤ now) (timer_queue s).

(** Two initialized timers, nothing armed. *)
Definition idle : kstate :=
  {| timers := <[1 := TIMER_INITIAL_VALUE fixed_tick_build]>
                 (<[2 := TIMER_INITIAL_VALUE fixed_tick_build]> ∅);
     timer_queue := [];
     clock := 0;
     critical_section_count := 0;
     platform_calls := [] |}.

(** A client that arms two timers, two ticks apart, and cancels the first. *)
Definition sample_calls : list api_call :=
  [call_timer_set_oneshot 1 5 100 0; time_passes 2;
   call_timer_set_periodic 2 3 101 0; call_timer_cancel 1].

(** A due timer at the head of the queue whose validity tag is gone. *)
Definition corrupted : kstate :=
  {| timers := <[1 := mk_timer 0 true 5 0 100 0]> ∅;
     timer_queue := [1];
     clock := 10;
     critical_section_count := 1;
     platform_calls := [] |}.

(** ** Basic facts *)

Ltac unfold_K :=
  unfold bind, ret, get, modify, panic, when, load, store, current_time,
    list_peek_head_type, platform_call_now, enter_critical_section,
    exit_critical_section, in_critical_section.

(** A sum that [lk_time_t] can hold is not changed by the wrap-around. *)
Lemma time_add_small (C : config) (a b : lk_time_t) :
  a + b < 2 ^ LK_TIME_BITS C → time_add C a b = a + b.
Proof. intros Hfit. unfold time_add. by apply N.mod_small. Qed.

Lemma bind_returns {A B} (m : K A) (k : A → K B) s a s' :
  m s = Returns a s' → bind m k s = k a s'.
Proof. unfold bind. by intros ->. Qed.

Lemma load_returns s timer tm :
  timers s !! timer = Some tm → load timer s = Returns tm s.
Proof. unfold load. by intros ->. Qed.

Lemma store_returns s timer tm0 tm :
  timers s !! timer = Some tm0 →
  store timer tm s = Returns tt (set_timers <[timer := tm]> s).
Proof. unfold store. by intros ->. Qed.

(** One step through a [bind] whose first action returns. *)
Ltac kstep tac := erewrite bind_returns; [|tac]; cbv beta.

Lemma with_node_same tm : with_node (node tm) tm = tm.
Proof. by destruct tm. Qed.

Lemma list_delete_returns s timer tm :
  timers s !! timer = Some tm →
  list_delete timer s
  = Returns tt (set_timer_queue (filter (λ e, e ≠ timer))
                  (set_timers <[timer := with_node false tm]> s)).
Proof.
  intros Ht. unfold list_delete.
  kstep ltac:(by apply load_returns).
  kstep ltac:(by eapply store_returns).
  reflexivity.
Qed.

Lemma queue_mapped_filter ts (P : N → Prop) `{∀ e, Decision (P e)} q :
  queue_mapped ts q → queue_mapped ts (filter P q).
Proof.
  unfold queue_mapped. rewrite !Forall_forall. intros Hq e He.
  apply Hq. by apply list_elem_of_filter in He as [_ ?].
Qed.

Lemma deadline_insert_same ts t tm tm' e :
  ts !! t = Some tm → scheduled_time tm' = scheduled_time tm →
  deadline (<[t := tm']> ts) e = deadline ts e.
Proof.
  intros Ht Heq. unfold deadline.
  destruct (decide (t = e)) as [->|Hne].
  - by rewrite lookup_insert_eq, Ht.
  - by rewrite lookup_insert_ne.
Qed.

Lemma queue_mapped_insert ts t tm q :
  queue_mapped ts q → queue_mapped (<[t := tm]> ts) q.
Proof.
  unfold queue_mapped. intros Hq. eapply Forall_impl; [exact Hq|].
  intros e He. simpl in *.
  destruct (decide (t = e)) as [->|Hne].
  - rewrite lookup_insert_eq. eauto.
  - by rewrite lookup_insert_ne.
Qed.

Lemma queue_sorted_ext ts ts' q :
  (∀ e, deadline ts' e = deadline ts e) →
  queue_sorted ts q → queue_sorted ts' q.
Proof.
  intros Hext. unfold queue_sorted. induction 1 as [|x l Hl IH Hx]; constructor.
  - done.
  - eapply Forall_impl; [exact Hx|]. intros y Hy. simpl in *. by rewrite !Hext.
Qed.

(** Where the scan puts the timer: behind a prefix of entries due no later,
    in front of an entry, if any, due strictly later. *)
Lemma insert_scan_split ts timer d q :
  queue_mapped ts q →
  ∃ before after,
    insert_scan ts timer d q = Some (before ++ timer :: after) ∧
    q = before ++ after ∧
    Forall (λ e, deadline ts e ≤ d) before ∧
    (∀ e, head after = Some e → d < deadline ts e).
Proof.
  induction 1 as [|entry rest [e He] Hrest IH]; simpl.
  - exists [], []. repeat split; [constructor | intros ? [=]].
  - rewrite He. unfold TIME_GT. destruct (d <? scheduled_time e) eqn:Hcmp.
    + exists [], (entry :: rest). repeat split; [constructor|].
      intros ? [= <-]. unfold deadline. rewrite He. by apply N.ltb_lt.
    + destruct IH as (before & after & -> & -> & Hb & Ha).
      exists (entry :: before), after. repeat split; [|done].
      constructor; [|done]. unfold deadline. rewrite He. by apply N.ltb_ge.
Qed.

Lemma sorted_tail_above ts d q :
  queue_sorted ts q →
  (∀ e, head q = Some e → d < deadline ts e) →
  Forall (λ e, d < deadline ts e) q.
Proof.
  intros Hs Hhd. destruct q as [|x l]; [constructor|].
  apply StronglySorted_cons in Hs as [Hx _].
  specialize (Hhd x eq_refl). constructor; [done|].
  eapply Forall_impl; [exact Hx|]. simpl. intros y Hy. lia.
Qed.

Lemma sorted_insert_between ts timer before after :
  queue_sorted ts (before ++ after) →
  Forall (λ e, deadline ts e ≤ deadline ts timer) before →
  Forall (λ e, deadline ts timer < deadline ts e) after →
  queue_sorted ts (before ++ timer :: after).
Proof.
  unfold queue_sorted. rewrite !StronglySorted_app, StronglySorted_cons.
  intros (Hcross & Hb & Ha) Hle Hlt. split_and!; [|done| |done].
  - intros x1 x2 Hx1 [->|Hx2]%elem_of_cons.
    + by apply (proj1 (Forall_forall _ _) Hle).
    + by apply Hcross.
  - eapply Forall_impl; [exact Hlt|]. simpl. intros y Hy. lia.
Qed.



Lemma filter_ne_absent (x : N) (l : list N) :
  x ∉ l → filter (λ e, e ≠ x) l = l.
Proof.
  induction l as [|y l IH]; [done|].
  intros [Hne Hl]%not_elem_of_cons.
  rewrite filter_cons_True by done. by rewrite IH.
Qed.

Lemma filter_ne_head (x : N) (l : list N) :
  NoDup (x :: l) → filter (λ e, e ≠ x) (x :: l) = l.
Proof.
  intros [Hx _]%NoDup_cons.
  rewrite filter_cons_False by (intros ?; done). by apply filter_ne_absent.
Qed.

(** ** Insertion *)

(** [insert_timer_in_queue] returns whenever the timer and the queue
    entries are valid objects, with the timer linked at the place the scan
    found and nothing else changed. *)
Lemma insert_timer_in_queue_split (s : kstate) (timer : addr) (tm : timer_t) :
  timers s !! timer = Some tm →
  queue_mapped (timers s) (timer_queue s) →
  ∃ before after,
    insert_timer_in_queue timer s
      = Returns tt (set_timer_queue (λ _, before ++ timer :: after)
                      (set_timers <[timer := with_node true tm]> s)) ∧
    timer_queue s = before ++ after ∧
    Forall (λ e, deadline (timers s) e ≤ scheduled_time tm) before ∧
    (∀ e, head after = Some e → scheduled_time tm < deadline (timers s) e).
Proof.
  intros Ht Hmap.
  destruct (insert_scan_split (timers s) timer (scheduled_time tm) _ Hmap)
    as (before & after & Hscan & Hq & Hbefore & Hafter).
  exists before, after. split_and!; try done.
  unfold insert_timer_in_queue. unfold_K. rewrite Ht. simpl.
  rewrite Hscan. simpl. by rewrite Ht.
Qed.

(** ** The queue stays sorted *)

(** C1: on a queue sorted ascending by [scheduled_time],
    [insert_timer_in_queue] returns with the queue still sorted ascending;
    the new timer stands behind every entry scheduled no later than it, in
    particular behind every entry with an equal deadline, and in front of
    every entry scheduled strictly later. *)
Theorem insert_timer_in_queue_sorted_fifo (s : kstate) (timer : addr) (tm : timer_t) :
  timers s !! timer = Some tm →
  queue_mapped (timers s) (timer_queue s) →
  queue_sorted (timers s) (timer_queue s) →
  ∃ s' before after,
    insert_timer_in_queue timer s = Returns tt s' ∧
    timer_queue s = before ++ after ∧
    timer_queue s' = before ++ timer :: after ∧
    (∀ e, deadline (timers s') e = deadline (timers s) e) ∧
    queue_sorted (timers s') (timer_queue s') ∧
    Forall (λ e, deadline (timers s) e ≤ scheduled_time tm) before ∧
    Forall (λ e, scheduled_time tm < deadline (timers s) e) after ∧
    (∀ i e, timer_queue s !! i = Some e →
            deadline (timers s) e = scheduled_time tm →
            timer_queue s' !! i = Some e ∧ (i < length before)%nat).
Proof.
  intros Ht Hmap Hsorted.
  destruct (insert_timer_in_queue_split s timer tm Ht Hmap)
    as (before & after & Hrun & Hq & Hbefore & Hafter).
  assert (Habove : Forall (λ e, scheduled_time tm < deadline (timers s) e) after).
  { apply sorted_tail_above; [|done].
    rewrite Hq in Hsorted. by apply StronglySorted_app_1_r in Hsorted. }
  assert (Hdl : ∀ e, deadline (<[timer := with_node true tm]> (timers s)) e
                     = deadline (timers s) e).
  { intros e. by apply deadline_insert_same with tm. }
  eexists _, before, after. split; [exact Hrun|].
  simpl. split_and!; try done.
  - eapply queue_sorted_ext; [exact Hdl|].
    apply sorted_insert_between.
    + by rewrite <- Hq.
    + unfold deadline at 2. by rewrite Ht.
    + unfold deadline at 1. by rewrite Ht.
  - intros i e Hi He.
    rewrite Hq in Hi.
    destruct (decide (i < length before)%nat) as [Hlt|Hge].
    + split; [|done]. rewrite lookup_app_l in Hi by done.
      by rewrite lookup_app_l.
    + rewrite lookup_app_r in Hi by lia.
      apply list_elem_of_lookup_2 in Hi.
      apply (proj1 (Forall_forall _ _) Habove) in Hi. lia.
Qed.

(** ** The lifecycle calls *)

Section Lifecycle.

Context (C : config).

Lemma DEBUG_ASSERT_holds b s :
  (DEBUG_ASSERTS C = true → b = true) → DEBUG_ASSERT C b s = Returns tt s.
Proof.
  unfold DEBUG_ASSERT. destruct (DEBUG_ASSERTS C); simpl; [|done].
  intros ->; done.
Qed.

Lemma magic_check tm :
  magic tm = TIMER_MAGIC C → (magic tm =? TIMER_MAGIC C) = true.
Proof. intros ->. apply N.eqb_refl. Qed.

Lemma timer_set_unlinked s timer tm delay period cb a :
  timers s !! timer = Some tm →
  (DEBUG_ASSERTS C = true → magic tm = TIMER_MAGIC C) →
  list_in_list tm = false →
  queue_mapped (timers s) (timer_queue s) →
  ∃ s' before after,
    timer_set C timer delay period cb a s = Returns tt s' ∧
    timer_queue s = before ++ after ∧
    timer_queue s' = before ++ timer :: after ∧
    timers s'
    = <[timer := mk_timer (magic tm) true (time_add C (clock s) delay)
                   period cb a]> (timers s) ∧
    clock s' = clock s ∧
    critical_section_count s' = critical_section_count s.
Proof.
  intros Ht Hmagic Hnode Hmap. unfold list_in_list in Hnode.
  set (tm' := mk_timer (magic tm) false (time_add C (clock s) delay) period cb a).
  set (s1 := set_critical_section_count S (set_timers <[timer := tm']> s)).
  destruct (insert_timer_in_queue_split s1 timer tm') as (before & after & Hrun & Hq & Hbefore & Hafter).
  { simpl. apply lookup_insert_eq. }
  { simpl. by apply queue_mapped_insert. }
  unfold timer_set. unfold_K. rewrite Ht. simpl.
  rewrite DEBUG_ASSERT_holds by (intros; apply magic_check; auto).
  unfold list_in_list. rewrite Hnode. simpl. rewrite Ht.
  fold tm'. fold s1. rewrite Hrun.
  simpl in Hq. clear Hrun Hbefore Hafter.
  assert (Hfin : ∀ s2 : kstate,
    timer_queue s2 = before ++ timer :: after →
    timers s2 = <[timer:=with_node true tm']> (<[timer:=tm']> (timers s)) →
    clock s2 = clock s →
    critical_section_count s2 = critical_section_count s →
    timer_queue s = before ++ after
    ∧ timer_queue s2 = before ++ timer :: after
    ∧ timers s2
      = <[timer:=mk_timer (magic tm) true (time_add C (clock s) delay)
                  period cb a]> (timers s)
    ∧ clock s2 = clock s
    ∧ critical_section_count s2 = critical_section_count s).
  { intros s2 -> -> -> ->. by rewrite insert_insert_eq. }
  destruct (PLATFORM_HAS_DYNAMIC_TIMER C); [case_bool_decide|];
    simpl; eexists _, before, after; (split; [reflexivity|]); by apply Hfin.
Qed.

Lemma timer_cancel_returns s timer tm :
  timers s !! timer = Some tm →
  (DEBUG_ASSERTS C = true → magic tm = TIMER_MAGIC C) →
  queue_mapped (timers s) (timer_queue s) →
  ∃ calls,
    timer_cancel C timer s
    = Returns tt
        {| timers := <[timer := cancelled tm]> (timers s);
           timer_queue := (if list_in_list tm
                           then filter (λ e, e ≠ timer) (timer_queue s)
                           else timer_queue s);
           clock := clock s;
           critical_section_count := critical_section_count s;
           platform_calls := calls |}.
Proof.
  intros Ht Hmagic Hmap.
  unfold timer_cancel.
  kstep ltac:(by apply load_returns).
  kstep ltac:(apply DEBUG_ASSERT_holds; intros; apply magic_check; auto).
  kstep ltac:(reflexivity).
  set (s1 := set_critical_section_count S s).
  set (old := if PLATFORM_HAS_DYNAMIC_TIMER C then head (timer_queue s) else None).
  kstep ltac:(instantiate (1 := s1); instantiate (1 := old); subst old;
              by destruct (PLATFORM_HAS_DYNAMIC_TIMER C)).
  set (s2 := if list_in_list tm
             then set_timer_queue (filter (λ e, e ≠ timer))
                    (set_timers <[timer := with_node false tm]> s1)
             else s1).
  kstep ltac:(instantiate (1 := s2); instantiate (1 := tt); subst s2;
              unfold when; destruct (list_in_list tm);
              [by apply list_delete_returns | done]).
  assert (Ht2 : timers s2 !! timer = Some (with_node false tm)).
  { subst s2. unfold list_in_list. destruct (node tm) eqn:Hn; simpl.
    - apply lookup_insert_eq.
    - by rewrite <- Hn, with_node_same. }
  kstep ltac:(by apply load_returns).
  kstep ltac:(by eapply store_returns).
  fold (cancelled tm).
  set (s3 := set_timers <[timer := cancelled tm]> s2).
  assert (Hmap3 : queue_mapped (timers s3) (timer_queue s3)).
  { subst s3 s2 s1. destruct (list_in_list tm); simpl.
    - by apply queue_mapped_insert, queue_mapped_insert, queue_mapped_filter.
    - by apply queue_mapped_insert. }
  assert (Hs3 : timers s3 = <[timer := cancelled tm]> (timers s) ∧
                timer_queue s3 = (if list_in_list tm
                                  then filter (λ e, e ≠ timer) (timer_queue s)
                                  else timer_queue s) ∧
                clock s3 = clock s ∧
                critical_section_count s3 = S (critical_section_count s)).
  { subst s3 s2 s1. destruct (list_in_list tm); simpl; [|done].
    by rewrite insert_insert_eq. }
  destruct Hs3 as (Hts & Hq & Hclock & Hcsc).
  assert (∃ calls, ∀ k : unit → K unit,
    bind
      (if PLATFORM_HAS_DYNAMIC_TIMER C
       then
        bind list_peek_head_type
          (λ newhead : option N,
             match newhead with
             | Some nh =>
                 if bool_decide (newhead ≠ old)
                 then
                  bind (load nh)
                    (λ e : timer_t,
                       bind current_time
                         (λ now : N,
                            platform_call_now
                              (platform_set_oneshot_timer
                                 (if TIME_LT (scheduled_time e) now
                                  then 0
                                  else scheduled_time e - now))))
                 else ret ()
             | None => platform_call_now platform_stop_timer
             end)
       else ret ()) k s3 = k tt (with_platform_calls calls s3)) as [calls Hdyn].
  { destruct (PLATFORM_HAS_DYNAMIC_TIMER C).
    - destruct (timer_queue s3) as [|nh q] eqn:Hq3.
      + eexists. intros k.
        kstep ltac:(kstep ltac:(reflexivity); rewrite Hq3; reflexivity).
        reflexivity.
      + destruct (decide (Some nh ≠ old)) as [Hne|Heq].
        * apply Forall_cons in Hmap3 as [[e He] _].
          eexists. intros k.
          kstep ltac:(kstep ltac:(reflexivity); rewrite Hq3; simpl;
                      rewrite bool_decide_eq_true_2 by done;
                      kstep ltac:(by apply load_returns);
                      kstep ltac:(reflexivity); reflexivity).
          reflexivity.
        * exists (platform_calls s3). intros k.
          kstep ltac:(kstep ltac:(reflexivity); rewrite Hq3; simpl;
                      rewrite bool_decide_eq_false_2 by done; reflexivity).
          by destruct s3.
    - exists (platform_calls s3). intros k. kstep ltac:(reflexivity).
      by destruct s3. }
  exists calls. rewrite Hdyn. unfold exit_critical_section, modify. f_equal.
  subst s3 s2 s1. unfold list_in_list. destruct (node tm); simpl.
  all: unfold set_critical_section_count, with_platform_calls, set_timers,
         set_timer_queue; simpl; by rewrite ?insert_insert_eq.
Qed.

(** C3: arming a timer that is linked in the queue panics, for
    [timer_set_oneshot] and [timer_set_periodic] alike, in the very state
    of the call: no field of the timer and no queue entry has changed, and
    no state with a second entry for the timer is produced. *)
Theorem timer_set_linked_panics (s : kstate) (timer : addr) (tm : timer_t)
    (delay period cb a : N) :
  timers s !! timer = Some tm →
  list_in_list tm = true →
  timer_set_oneshot C timer delay cb a s = Panic s ∧
  timer_set_periodic C timer period cb a s = Panic s.
Proof.
  intros Ht Hlinked.
  assert (Hset : ∀ d p, timer_set C timer d p cb a s = Panic s).
  { intros d p. unfold timer_set.
    kstep ltac:(by apply load_returns).
    unfold DEBUG_ASSERT.
    destruct (DEBUG_ASSERTS C && negb (magic tm =? TIMER_MAGIC C)); [done|].
    kstep ltac:(reflexivity). by rewrite Hlinked. }
  split; apply Hset.
Qed.

(** C5, as amended: on a valid unlinked timer, [timer_set_oneshot] returns
    with [scheduled_time] the sum [now + max delay 1] of [lk_time_t], that
    is, modulo [2 ^ LK_TIME_BITS], and [periodic_time = 0]; and
    [timer_set_periodic] returns with [periodic_time = max period 1] and
    [scheduled_time] the sum [now + max period 1] of [lk_time_t]; [now] is
    the clock at the call.  Callback and argument are stored and the timer
    is linked.  Where the sum does not wrap, the deadline is [now + max
    delay 1], respectively [now + max period 1], itself. *)
Theorem timer_set_schedules (s : kstate) (timer : addr) (tm : timer_t)
    (delay period cb a : N) :
  timers s !! timer = Some tm →
  magic tm = TIMER_MAGIC C →
  list_in_list tm = false →
  queue_wf s →
  (∃ s', timer_set_oneshot C timer delay cb a s = Returns tt s' ∧
         timers s' !! timer
         = Some {| magic := magic tm; node := true;
                   scheduled_time := (clock s + N.max delay 1) mod 2 ^ LK_TIME_BITS C;
                   periodic_time := 0; callback := cb; arg := a |} ∧
         timer ∈ timer_queue s' ∧
         (clock s + N.max delay 1 < 2 ^ LK_TIME_BITS C →
          timers s' !! timer
          = Some {| magic := magic tm; node := true;
                    scheduled_time := clock s + N.max delay 1;
                    periodic_time := 0; callback := cb; arg := a |})) ∧
  (∃ s', timer_set_periodic C timer period cb a s = Returns tt s' ∧
         timers s' !! timer
         = Some {| magic := magic tm; node := true;
                   scheduled_time := (clock s + N.max period 1) mod 2 ^ LK_TIME_BITS C;
                   periodic_time := N.max period 1; callback := cb; arg := a |} ∧
         timer ∈ timer_queue s' ∧
         (clock s + N.max period 1 < 2 ^ LK_TIME_BITS C →
          timers s' !! timer
          = Some {| magic := magic tm; node := true;
                    scheduled_time := clock s + N.max period 1;
                    periodic_time := N.max period 1; callback := cb; arg := a |})).
Proof.
  intros Ht Hmagic Hnode Hwf.
  assert (Hmax : ∀ d, (if d =? 0 then 1 else d) = N.max d 1).
  { intros d. destruct (N.eqb_spec d 0); lia. }
  split.
  - destruct (timer_set_unlinked s timer tm (N.max delay 1) 0 cb a)
      as (s' & before & after & Hrun & _ & Hq & Hts & _);
      [done|auto|done|apply Hwf|].
    exists s'. unfold timer_set_oneshot. rewrite Hmax.
    split_and!; [done| | |].
    + rewrite Hts. apply lookup_insert_eq.
    + rewrite Hq. set_solver.
    + intros Hfit. rewrite Hts, time_add_small by done. apply lookup_insert_eq.
  - destruct (timer_set_unlinked s timer tm (N.max period 1) (N.max period 1) cb a)
      as (s' & before & after & Hrun & _ & Hq & Hts & _);
      [done|auto|done|apply Hwf|].
    exists s'. unfold timer_set_periodic. rewrite Hmax.
    split_and!; [done| | |].
    + rewrite Hts. apply lookup_insert_eq.
    + rewrite Hq. set_solver.
    + intros Hfit. rewrite Hts, time_add_small by done. apply lookup_insert_eq.
Qed.

Lemma requeue_periodic_not_periodic (s : kstate) (timer : addr) (tm : timer_t) now periodic :
  timers s !! timer = Some tm →
  periodic && negb (list_in_list tm) && (0 <? periodic_time tm) = false →
  requeue_periodic C now periodic timer s = Returns tt s.
Proof.
  intros Ht Hcond. unfold requeue_periodic.
  kstep ltac:(by apply load_returns). by rewrite Hcond.
Qed.

(** C6: on a valid timer, linked or not, [timer_cancel] returns; the timer
    is then unlinked with [periodic_time], [callback] and [arg] cleared and
    its other fields kept; the queue has lost this timer, if it was linked,
    and nothing else; no other timer has changed; and the dispatcher's
    requeue step, run on the resulting state for this timer, does nothing. *)
Theorem timer_cancel_clears (s : kstate) (timer : addr) (tm : timer_t) :
  timers s !! timer = Some tm →
  magic tm = TIMER_MAGIC C →
  queue_mapped (timers s) (timer_queue s) →
  ∃ s',
    timer_cancel C timer s = Returns tt s' ∧
    timers s' !! timer
    = Some {| magic := magic tm; node := false;
              scheduled_time := scheduled_time tm;
              periodic_time := 0; callback := NULL; arg := NULL |} ∧
    (∀ t, t ≠ timer → timers s' !! t = timers s !! t) ∧
    timer_queue s' = (if list_in_list tm
                      then filter (λ e, e ≠ timer) (timer_queue s)
                      else timer_queue s) ∧
    (list_in_list tm = true → timer ∉ timer_queue s') ∧
    clock s' = clock s ∧
    critical_section_count s' = critical_section_count s ∧
    (∀ now periodic, requeue_periodic C now periodic timer s' = Returns tt s').
Proof.
  intros Ht Hmagic Hmap.
  destruct (timer_cancel_returns s timer tm) as [calls Hrun]; auto.
  eexists. split; [exact Hrun|]. simpl. split_and!; try done.
  - apply lookup_insert_eq.
  - intros t Hne. by rewrite lookup_insert_ne.
  - intros ->. rewrite list_elem_of_filter. tauto.
  - intros now periodic.
    eapply requeue_periodic_not_periodic; [apply lookup_insert_eq|].
    simpl. by rewrite andb_false_r.
Qed.

(** C9, as amended: [timer_cancel] on an initialized, never armed timer
    returns and leaves every timer, the queue, the clock and the critical
    section as they were; its one effect is, on a dynamic-timer platform
    whose queue is empty, a call of [platform_stop_timer]. *)
Theorem timer_cancel_never_armed (s : kstate) (timer : addr) :
  timers s !! timer = Some (TIMER_INITIAL_VALUE C) →
  timer_cancel C timer s
  = Returns tt (if PLATFORM_HAS_DYNAMIC_TIMER C
                   && bool_decide (timer_queue s = [])
                then platform platform_stop_timer s
                else s).
Proof.
  intros Ht. unfold timer_cancel.
  kstep ltac:(by apply load_returns).
  kstep ltac:(apply DEBUG_ASSERT_holds; intros; apply N.eqb_refl).
  kstep ltac:(reflexivity).
  set (s1 := set_critical_section_count S s).
  assert (Ht1 : timers s1 !! timer = Some (TIMER_INITIAL_VALUE C)) by done.
  assert (Hid : set_timers <[timer := TIMER_INITIAL_VALUE C]> s1 = s1).
  { unfold set_timers. rewrite insert_id by done. by destruct s. }
  destruct (PLATFORM_HAS_DYNAMIC_TIMER C); simpl.
  - kstep ltac:(reflexivity).
    kstep ltac:(reflexivity).
    kstep ltac:(by apply load_returns).
    kstep ltac:(by eapply store_returns).
    change (mk_timer _ _ _ _ _ _) with (TIMER_INITIAL_VALUE C). rewrite Hid.
    destruct (timer_queue s) as [|hd q] eqn:Hq.
    + kstep ltac:(kstep ltac:(reflexivity); simpl; rewrite Hq; reflexivity).
      subst s1. destruct s; simpl in *. by subst.
    + kstep ltac:(kstep ltac:(reflexivity); simpl; rewrite Hq; simpl;
                  rewrite bool_decide_eq_false_2 by (by intros []);
                  reflexivity).
      subst s1. destruct s; simpl in *. by subst.
  - kstep ltac:(reflexivity).
    kstep ltac:(reflexivity).
    kstep ltac:(by apply load_returns).
    kstep ltac:(by eapply store_returns).
    change (mk_timer _ _ _ _ _ _) with (TIMER_INITIAL_VALUE C). rewrite Hid.
    kstep ltac:(reflexivity). subst s1. by destruct s.
Qed.

End Lifecycle.

(** ** The dispatcher *)

Section Dispatch.

Context (C : config) (E : kernel).

Lemma timer_tick_loop_empty fuel now r s :
  timer_queue s = [] →
  timer_tick_loop C E (S fuel) now r s = Returns (r, []) s.
Proof.
  intros Hq. simpl. kstep ltac:(reflexivity). by rewrite Hq.
Qed.

Lemma timer_tick_loop_future fuel now r s timer tm :
  head (timer_queue s) = Some timer →
  timers s !! timer = Some tm →
  now < scheduled_time tm →
  timer_tick_loop C E (S fuel) now r s = Returns (r, []) s.
Proof.
  intros Hq Ht Hlt. simpl. kstep ltac:(reflexivity). rewrite Hq.
  kstep ltac:(by apply load_returns).
  unfold TIME_LT. by rewrite (proj2 (N.ltb_lt _ _) Hlt).
Qed.

Lemma timer_tick_loop_due fuel now r s timer tm :
  head (timer_queue s) = Some timer →
  timers s !! timer = Some tm →
  scheduled_time tm ≤ now →
  (DEBUG_ASSERTS C = true → magic tm = TIMER_MAGIC C) →
  timer_tick_loop C E (S fuel) now r s
  = (hint <- call E (callback tm) timer now (arg tm) ;;
     requeue_periodic C now (0 <? periodic_time tm) timer ;;
     rest <- timer_tick_loop C E fuel now
               (if decide (hint = INT_RESCHEDULE) then INT_RESCHEDULE else r) ;;
     ret (rest.1, Fired timer (popped timer tm s) hint :: rest.2))
    (popped timer tm s).
Proof.
  intros Hq Ht Hdue Hmagic. simpl. kstep ltac:(reflexivity). rewrite Hq.
  kstep ltac:(by apply load_returns).
  unfold TIME_LT. rewrite (proj2 (N.ltb_ge _ _) Hdue).
  kstep ltac:(apply DEBUG_ASSERT_holds; intros; apply magic_check; auto).
  kstep ltac:(by apply list_delete_returns).
  fold (popped timer tm s).
  kstep ltac:(apply load_returns; apply lookup_insert_eq).
  kstep ltac:(reflexivity).
  reflexivity.
Qed.

Lemma bind_returns_inv {A B} (m : K A) (k : A → K B) s b s' :
  bind m k s = Returns b s' →
  ∃ a s1, m s = Returns a s1 ∧ k a s1 = Returns b s'.
Proof. unfold bind. destruct (m s) as [a s1| | |]; [eauto|done..]. Qed.

Lemma popped_lookup timer tm s :
  timers (popped timer tm s) !! timer = Some (with_node false tm).
Proof. apply lookup_insert_eq. Qed.

Lemma popped_not_in_queue timer tm s : timer ∉ timer_queue (popped timer tm s).
Proof. simpl. rewrite list_elem_of_filter. tauto. Qed.

(** What one completed pass of the loop body has done. *)
Lemma timer_tick_loop_returns_inv fuel now r s r' evs s' :
  timer_tick_loop C E (S fuel) now r s = Returns (r', evs) s' →
  (r' = r ∧ evs = [] ∧ s' = s ∧ drained now s) ∨
  (∃ timer tm hint s1 s2 rest,
     head (timer_queue s) = Some timer ∧
     timers s !! timer = Some tm ∧
     scheduled_time tm ≤ now ∧
     call E (callback tm) timer now (arg tm) (popped timer tm s) = Returns hint s1 ∧
     requeue_periodic C now (0 <? periodic_time tm) timer s1 = Returns tt s2 ∧
     timer_tick_loop C E fuel now
       (if decide (hint = INT_RESCHEDULE) then INT_RESCHEDULE else r) s2
     = Returns rest s' ∧
     r' = rest.1 ∧
     evs = Fired timer (popped timer tm s) hint :: rest.2).
Proof.
  intros Hrun.
  destruct (head (timer_queue s)) as [timer|] eqn:Hhd.
  2:{ left. unfold drained. rewrite Hhd.
      rewrite timer_tick_loop_empty in Hrun by (by destruct (timer_queue s)).
      by injection Hrun as <- <- <-. }
  destruct (timers s !! timer) as [tm|] eqn:Ht.
  2:{ simpl in Hrun. unfold bind at 1 in Hrun. simpl in Hrun.
      rewrite Hhd in Hrun. unfold bind at 1, load in Hrun.
      by rewrite Ht in Hrun. }
  destruct (decide (now < scheduled_time tm)) as [Hlt|Hge].
  { left. unfold drained. rewrite Hhd.
    rewrite (timer_tick_loop_future _ _ _ _ timer tm) in Hrun by done.
    injection Hrun as <- <- <-. split_and!; eauto. }
  right.
  destruct (DEBUG_ASSERTS C && negb (magic tm =? TIMER_MAGIC C)) eqn:Hassert.
  { simpl in Hrun. unfold bind at 1 in Hrun. simpl in Hrun.
    rewrite Hhd in Hrun. unfold bind at 1, load in Hrun. rewrite Ht in Hrun.
    unfold TIME_LT in Hrun. rewrite (proj2 (N.ltb_ge _ _)) in Hrun by lia.
    unfold bind at 1, DEBUG_ASSERT in Hrun. by rewrite Hassert in Hrun. }
  rewrite (timer_tick_loop_due _ _ _ _ timer tm) in Hrun; [|done|done|lia|].
  2:{ intros Hd. rewrite Hd in Hassert. simpl in Hassert.
      apply negb_false_iff, N.eqb_eq in Hassert. done. }
  apply bind_returns_inv in Hrun as (hint & s1 & Hcall & Hrun).
  apply bind_returns_inv in Hrun as ([] & s2 & Hreq & Hrun).
  apply bind_returns_inv in Hrun as (rest & s3 & Hrest & Hrun).
  injection Hrun as <- <- <-.
  exists timer, tm, hint, s1, s2, rest. split_and!; try done. lia.
Qed.

(** The loop's bookkeeping, over any number of iterations: the result is
    the OR of the incoming hint and the hints of the callbacks fired; every
    firing recorded is genuine; and the loop leaves nothing due behind. *)
Lemma timer_tick_loop_returns fuel now r s r' evs s' :
  timer_tick_loop C E fuel now r s = Returns (r', evs) s' →
  (r' = INT_RESCHEDULE ↔
     r = INT_RESCHEDULE ∨ Exists (λ ev, event_hint ev = INT_RESCHEDULE) evs) ∧
  Forall (genuine_firing E now) evs ∧
  drained now s'.
Proof.
  revert r s r' evs s'. induction fuel as [|fuel IH]; intros r s r' evs s' Hrun.
  { done. }
  apply timer_tick_loop_returns_inv in Hrun
    as [(-> & -> & -> & Hdr)|(timer & tm & hint & s1 & s2 & [r2 evs2] & Hhd & Ht
                              & Hdue & Hcall & Hreq & Hrest & -> & ->)].
  - split_and!; [|constructor|done].
    rewrite Exists_nil. tauto.
  - apply IH in Hrest as (Hor & Hgen & Hdr). simpl.
    split_and!; [|constructor; [|done]|done].
    + rewrite Hor, Exists_cons. simpl.
      destruct (decide (hint = INT_RESCHEDULE)); [tauto|]. tauto.
    + split; [apply popped_not_in_queue|].
      exists (with_node false tm), s1. rewrite popped_lookup. done.
Qed.

(** C4: one pass of the drain loop at time [now].  On an empty queue, or
    with a head scheduled strictly after [now], the loop stops at once: it
    returns the hint it holds, fires nothing and leaves the state as it is.
    With a head scheduled at or before [now], equality included, the loop
    first unlinks the head and only then calls its callback, in a state
    where the timer is no longer in the queue and its node is clear.  Over
    a whole run that returns, every callback fired belonged to a timer that
    was due and already unlinked, and nothing due is left. *)
Theorem timer_tick_loop_fires_due (fuel : nat) (now : lk_time_t)
    (r : handler_return) (s : kstate) :
  (timer_queue s = [] →
   timer_tick_loop C E (S fuel) now r s = Returns (r, []) s) ∧
  (∀ timer tm,
     head (timer_queue s) = Some timer →
     timers s !! timer = Some tm →
     now < scheduled_time tm →
     timer_tick_loop C E (S fuel) now r s = Returns (r, []) s) ∧
  (∀ timer tm,
     head (timer_queue s) = Some timer →
     timers s !! timer = Some tm →
     scheduled_time tm ≤ now →
     (DEBUG_ASSERTS C = true → magic tm = TIMER_MAGIC C) →
     ∃ s0,
       list_delete timer s = Returns tt s0 ∧
       (timer ∉ timer_queue s0) ∧
       (NoDup (timer_queue s) → timer_queue s0 = tail (timer_queue s)) ∧
       timers s0 !! timer = Some (with_node false tm) ∧
       timer_tick_loop C E (S fuel) now r s
       = (hint <- call E (callback tm) timer now (arg tm) ;;
          requeue_periodic C now (0 <? periodic_time tm) timer ;;
          rest <- timer_tick_loop C E fuel now
                    (if decide (hint = INT_RESCHEDULE) then INT_RESCHEDULE
                     else r) ;;
          ret (rest.1, Fired timer s0 hint :: rest.2)) s0) ∧
  (∀ r' evs s',
     timer_tick_loop C E fuel now r s = Returns (r', evs) s' →
     Forall (genuine_firing E now) evs ∧ drained now s').
Proof.
  split_and!.
  - apply timer_tick_loop_empty.
  - apply timer_tick_loop_future.
  - intros timer tm Hhd Ht Hdue Hmagic.
    exists (popped timer tm s). split_and!.
    + by apply list_delete_returns.
    + apply popped_not_in_queue.
    + intros Hnd. simpl. destruct (timer_queue s) as [|x q]; [done|].
      injection Hhd as ->. by apply filter_ne_head.
    + apply popped_lookup.
    + by apply timer_tick_loop_due.
  - intros r' evs s' Hrun.
    by apply timer_tick_loop_returns in Hrun as (_ & ? & ?).
Qed.

(** The part of [timer_tick] behind the loop, on a dynamic-timer platform. *)
Lemma timer_tick_dynamic fuel a now s r fired s1 :
  PLATFORM_HAS_DYNAMIC_TIMER C = true →
  timer_tick_loop C E fuel now INT_NO_RESCHEDULE s = Returns (r, fired) s1 →
  timer_tick C E fuel a now s
  = (ics <- in_critical_section ;; DEBUG_ASSERT C ics ;; ret (r, fired))
      (match head (timer_queue s1) with
       | Some timer =>
           platform (platform_set_oneshot_timer (deadline (timers s1) timer - now)) s1
       | None => s1
       end) ∧
  drained now s1.
Proof.
  intros Hdyn Hloop.
  pose proof (timer_tick_loop_returns _ _ _ _ _ _ _ Hloop) as (_ & _ & Hdr).
  split; [|done].
  unfold timer_tick. kstep ltac:(exact Hloop). rewrite Hdyn.
  unfold drained in Hdr.
  destruct (head (timer_queue s1)) as [timer|] eqn:Hhd.
  - destruct Hdr as (tm & Ht & Hlt).
    kstep ltac:(kstep ltac:(reflexivity); rewrite Hhd;
                kstep ltac:(by apply load_returns);
                kstep ltac:(apply DEBUG_ASSERT_holds; intros _; unfold TIME_GT;
                            by apply N.ltb_lt);
                kstep ltac:(reflexivity); reflexivity).
    unfold deadline. by rewrite Ht.
  - kstep ltac:(kstep ltac:(reflexivity); rewrite Hhd; reflexivity).
    reflexivity.
Qed.

Lemma in_critical_section_check s (b : handler_return * list tick_event) :
  (DEBUG_ASSERTS C = true → (0 < critical_section_count s)%nat) →
  (ics <- in_critical_section ;; DEBUG_ASSERT C ics ;; ret b) s = Returns b s.
Proof.
  intros Hcs. kstep ltac:(reflexivity).
  kstep ltac:(apply DEBUG_ASSERT_holds; intros ?; apply bool_decide_eq_true; auto).
  reflexivity.
Qed.

(** C8: on a dynamic-timer platform, when the drain loop at [now] has
    finished with a non-empty queue, the head is scheduled strictly after
    [now]: the assertion at the re-arm site holds, the delay programmed is
    [scheduled_time - now] and is positive, and [timer_tick] returns having
    made that one platform call; with an empty queue [timer_tick] returns
    in the state the loop left, having programmed nothing. *)
Theorem timer_tick_rearm_positive (fuel : nat) (a : addr) (now : lk_time_t)
    (s : kstate) (r : handler_return) (fired : list tick_event) (s1 : kstate) :
  PLATFORM_HAS_DYNAMIC_TIMER C = true →
  timer_tick_loop C E fuel now INT_NO_RESCHEDULE s = Returns (r, fired) s1 →
  (DEBUG_ASSERTS C = true → (0 < critical_section_count s1)%nat) →
  match head (timer_queue s1) with
  | Some timer =>
      ∃ tm,
        timers s1 !! timer = Some tm ∧
        now < scheduled_time tm ∧
        0 < scheduled_time tm - now ∧
        DEBUG_ASSERT C (TIME_GT (scheduled_time tm) now) s1 = Returns tt s1 ∧
        timer_tick C E fuel a now s
        = Returns (r, fired)
            (platform (platform_set_oneshot_timer (scheduled_time tm - now)) s1)
  | None => timer_tick C E fuel a now s = Returns (r, fired) s1
  end.
Proof.
  intros Hdyn Hloop Hcs.
  destruct (timer_tick_dynamic fuel a now s r fired s1 Hdyn Hloop) as [Hrun Hdr].
  unfold drained in Hdr.
  destruct (head (timer_queue s1)) as [timer|] eqn:Hhd.
  - destruct Hdr as (tm & Ht & Hlt). exists tm. split_and!; [done|done|lia| |].
    + apply DEBUG_ASSERT_holds. intros _. unfold TIME_GT. by apply N.ltb_lt.
    + rewrite Hrun. unfold deadline. rewrite Ht.
      by apply in_critical_section_check.
  - rewrite Hrun. by apply in_critical_section_check.
Qed.

(** What a returning [timer_tick] has gone through. *)
Lemma timer_tick_returns_inv fuel a now s r evs s' :
  timer_tick C E fuel a now s = Returns (r, evs) s' →
  ∃ r0 fired s1,
    timer_tick_loop C E fuel now INT_NO_RESCHEDULE s = Returns (r0, fired) s1 ∧
    if PLATFORM_HAS_DYNAMIC_TIMER C then r = r0 ∧ evs = fired
    else ∃ hint s2,
           thread_timer_tick E s1 = Returns hint s2 ∧
           r = (if decide (hint = INT_RESCHEDULE) then INT_RESCHEDULE else r0) ∧
           evs = fired ++ [SchedulerTick hint].
Proof.
  intros Hrun. unfold timer_tick in Hrun.
  apply bind_returns_inv in Hrun as ([r0 fired] & s1 & Hloop & Hrun).
  exists r0, fired, s1. split; [done|].
  apply bind_returns_inv in Hrun as (res & s2 & Hmid & Hrun).
  apply bind_returns_inv in Hrun as (ics & s3 & _ & Hrun).
  apply bind_returns_inv in Hrun as ([] & s4 & _ & Hrun).
  injection Hrun as -> _.
  destruct (PLATFORM_HAS_DYNAMIC_TIMER C).
  - apply bind_returns_inv in Hmid as (hd & s5 & _ & Hmid).
    destruct hd as [timer|].
    + apply bind_returns_inv in Hmid as (tm & s6 & _ & Hmid).
      apply bind_returns_inv in Hmid as ([] & s7 & _ & Hmid).
      apply bind_returns_inv in Hmid as ([] & s8 & _ & Hmid).
      unfold ret in Hmid. by simplify_eq.
    + unfold ret in Hmid. by simplify_eq.
  - apply bind_returns_inv in Hmid as (hint & s5 & Hhook & Hmid).
    unfold ret in Hmid. simplify_eq. eauto.
Qed.

(** C7: a dispatch that returns yields the OR of the hints it collected.
    The hints are those of the callbacks it fired, each a genuine call, and,
    on a fixed-tick platform only, the one returned by the scheduler hook
    [thread_timer_tick]; the result is [INT_RESCHEDULE] exactly when one of
    them is, and [INT_NO_RESCHEDULE] exactly when all of them are. *)
Theorem timer_tick_aggregates_hints (fuel : nat) (a : addr) (now : lk_time_t)
    (s : kstate) (r : handler_return) (evs : list tick_event) (s' : kstate) :
  timer_tick C E fuel a now s = Returns (r, evs) s' →
  (∃ fired,
     Forall (genuine_firing E now) fired ∧
     if PLATFORM_HAS_DYNAMIC_TIMER C then evs = fired
     else ∃ hint s1 s2,
            thread_timer_tick E s1 = Returns hint s2 ∧
            evs = fired ++ [SchedulerTick hint]) ∧
  (r = INT_RESCHEDULE ↔
     Exists (λ ev, event_hint ev = INT_RESCHEDULE) evs) ∧
  (r = INT_NO_RESCHEDULE ↔
     Forall (λ ev, event_hint ev = INT_NO_RESCHEDULE) evs).
Proof.
  intros Hrun.
  apply timer_tick_returns_inv in Hrun as (r0 & fired & s1 & Hloop & Hrest).
  apply timer_tick_loop_returns in Hloop as (Hor & Hgen & _).
  assert (Hor' : r0 = INT_RESCHEDULE ↔
                 Exists (λ ev, event_hint ev = INT_RESCHEDULE) fired).
  { rewrite Hor. split; [intros [?|?]; [done|done]|by right]. }
  assert (Hmain : (∃ fired,
     Forall (genuine_firing E now) fired ∧
     if PLATFORM_HAS_DYNAMIC_TIMER C then evs = fired
     else ∃ hint s1 s2,
            thread_timer_tick E s1 = Returns hint s2 ∧
            evs = fired ++ [SchedulerTick hint]) ∧
    (r = INT_RESCHEDULE ↔ Exists (λ ev, event_hint ev = INT_RESCHEDULE) evs)).
  { destruct (PLATFORM_HAS_DYNAMIC_TIMER C).
    - destruct Hrest as [-> ->]. split; [by exists fired|done].
    - destruct Hrest as (hint & s2 & Hhook & -> & ->).
      split; [exists fired; split; [done|]; by exists hint, s1, s2|].
      rewrite Exists_app, Exists_cons, Exists_nil, <- Hor'. simpl.
      destruct (decide (hint = INT_RESCHEDULE)); [tauto|]. tauto. }
  destruct Hmain as [Hshape Hiff]. split_and!; [done|done|].
  split.
  - intros -> . apply Forall_forall. intros ev Hev.
    destruct (event_hint ev) eqn:Hh; [done|].
    assert (INT_NO_RESCHEDULE = INT_RESCHEDULE); [|done].
    apply Hiff, Exists_exists. eauto.
  - intros Hall. destruct r; [done|].
    apply proj1 in Hiff. specialize (Hiff eq_refl).
    apply Exists_exists in Hiff as (ev & Hev & Hh).
    apply (proj1 (Forall_forall _ _) Hall) in Hev. congruence.
Qed.
End Dispatch.

(** ** Well-formedness and the entries due during a dispatch *)

Lemma wf_unlinked_absent s timer tm :
  queue_wf s → timers s !! timer = Some tm → list_in_list tm = false →
  timer ∉ timer_queue s.
Proof.
  intros Hwf Ht Hnode Hin. apply (wf_linked s Hwf timer tm Ht) in Hin. congruence.
Qed.

Lemma wf_lookup s timer :
  queue_wf s → timer ∈ timer_queue s → ∃ tm, timers s !! timer = Some tm.
Proof.
  intros Hwf Hin. apply (proj1 (Forall_forall _ _) (wf_mapped s Hwf)) in Hin.
  by destruct Hin as [tm ?]; exists tm.
Qed.

Lemma length_filter_filter_le (P Q : N → Prop)
    `{∀ e, Decision (P e)} `{∀ e, Decision (Q e)} (l : list N) :
  (length (filter P (filter Q l)) ≤ length (filter P l))%nat.
Proof.
  induction l as [|x l IH]; [done|].
  rewrite (filter_cons Q), (filter_cons P).
  destruct (decide (Q x)), (decide (P x)); rewrite ?filter_cons_True by done;
    rewrite ?filter_cons_False by done; simpl; lia.
Qed.

Lemma due_filter_ext (ts ts' : gmap N timer_t) now (q : list N) :
  (∀ e, e ∈ q → deadline ts' e = deadline ts e) →
  filter (λ e, deadline ts' e ≤ now) q = filter (λ e, deadline ts e ≤ now) q.
Proof.
  induction q as [|x q IH]; [done|]. intros Hext.
  rewrite !filter_cons, (Hext x) by set_solver.
  rewrite IH by (intros; apply Hext; set_solver). done.
Qed.

(** Linking an unlinked timer with a deadline after [now] keeps the queue
    well formed and adds nothing that is due. *)
Lemma link_preserves now s s' timer tm0 tm' before after :
  queue_wf s →
  timers s !! timer = Some tm0 →
  list_in_list tm0 = false →
  list_in_list tm' = true →
  timer_queue s = before ++ after →
  timers s' = <[timer := tm']> (timers s) →
  timer_queue s' = before ++ timer :: after →
  queue_wf s' ∧
  (now < scheduled_time tm' → due_count now s' = due_count now s).
Proof.
  intros Hwf Ht Hnode0 Hnode' Hq Hts' Hq'.
  pose proof (wf_unlinked_absent s timer tm0 Hwf Ht Hnode0) as Habs.
  destruct Hwf as [Hnd Hmap Hlink].
  split; [split|].
  - rewrite Hq'. rewrite Hq in Hnd, Habs.
    apply NoDup_app in Hnd as (Hb & Hcross & Ha).
    apply NoDup_app. split_and!; [done| |].
    + intros x Hx [->|Hxa]%elem_of_cons; [|by eapply Hcross].
      apply Habs, elem_of_app. by left.
    + apply NoDup_cons. split; [|done].
      intros Hin. apply Habs, elem_of_app. by right.
  - rewrite Hts', Hq'. rewrite Hq in Hmap.
    apply queue_mapped_insert. unfold queue_mapped in *.
    rewrite Forall_app in Hmap. destruct Hmap as [Hb Ha].
    rewrite Forall_app, Forall_cons. split_and!; [done| |done].
    rewrite Ht. eauto.
  - intros t tm. rewrite Hts', Hq'.
    destruct (decide (timer = t)) as [->|Hne].
    + rewrite lookup_insert_eq. intros [= <-]. rewrite Hnode'.
      split; [intros _|done]. apply elem_of_app. right. by left.
    + rewrite lookup_insert_ne by done. intros Hlk.
      rewrite (Hlink t tm Hlk), Hq, !elem_of_app, elem_of_cons.
      split; [tauto|]. intros [?|[->|?]]; [tauto|done|tauto].
  - intros Hlate. unfold due_count. rewrite Hq', Hq, Hts'.
    rewrite !filter_app, filter_cons_False.
    2:{ unfold deadline. rewrite lookup_insert_eq. lia. }
    rewrite <- !filter_app. f_equal. rewrite <- Hq.
    apply due_filter_ext. intros e He. unfold deadline.
    rewrite lookup_insert_ne; [done|]. intros ->. done.
Qed.

(** Unlinking a timer, or rewriting an unlinked one, with its deadline
    kept: the queue stays well formed and nothing new is due. *)
Lemma unlink_preserves now s s' timer tm0 tm' :
  queue_wf s →
  timers s !! timer = Some tm0 →
  list_in_list tm' = false →
  scheduled_time tm' = scheduled_time tm0 →
  timers s' = <[timer := tm']> (timers s) →
  timer_queue s' = filter (λ e, e ≠ timer) (timer_queue s) →
  queue_wf s' ∧ (due_count now s' ≤ due_count now s)%nat.
Proof.
  intros [Hnd Hmap Hlink] Ht Hnode' Hsched Hts' Hq'.
  split; [split|].
  - rewrite Hq'. by apply NoDup_filter.
  - rewrite Hts', Hq'. by apply queue_mapped_insert, queue_mapped_filter.
  - intros t tm. rewrite Hts', Hq', list_elem_of_filter.
    destruct (decide (timer = t)) as [->|Hne].
    + rewrite lookup_insert_eq. intros [= <-]. rewrite Hnode'. split; [done|tauto].
    + rewrite lookup_insert_ne by done. intros Hlk.
      rewrite (Hlink t tm Hlk). split; [by split|tauto].
  - unfold due_count. rewrite Hq', Hts'.
    rewrite (due_filter_ext (timers s)).
    2:{ intros e _. by apply deadline_insert_same with tm0. }
    apply length_filter_filter_le.
Qed.


Lemma bind_fault {A B} (m : K A) (k : A → K B) s :
  m s = Fault → bind m k s = Fault.
Proof. unfold bind. by intros ->. Qed.

Lemma bind_panic {A B} (m : K A) (k : A → K B) s s' :
  m s = Panic s' → bind m k s = Panic s'.
Proof. unfold bind. by intros ->. Qed.


Lemma load_fault s timer : timers s !! timer = None → load timer s = Fault.
Proof. unfold load. by intros ->. Qed.

Section Termination.

Context (C : config) (now horizon : lk_time_t).


Lemma DEBUG_ASSERT_fails b s :
  DEBUG_ASSERTS C && negb b = true → DEBUG_ASSERT C b s = Panic s.
Proof. unfold DEBUG_ASSERT. by intros ->. Qed.

Lemma DEBUG_ASSERT_passes b s :
  DEBUG_ASSERTS C && negb b = false → DEBUG_ASSERT C b s = Returns tt s.
Proof. unfold DEBUG_ASSERT. by intros ->. Qed.

Lemma magic_checked tm :
  DEBUG_ASSERTS C && negb (magic tm =? TIMER_MAGIC C) = false →
  DEBUG_ASSERTS C = true → magic tm = TIMER_MAGIC C.
Proof.
  intros Hassert Hd. rewrite Hd in Hassert.
  by apply negb_false_iff, N.eqb_eq in Hassert.
Qed.







End Termination.

Section DispatchTermination.

Context (C : config) (E : kernel) (now horizon : lk_time_t).




End DispatchTermination.

(** ** Requeueing periodic timers *)

Section Requeue.

Context (C : config) (E : kernel).

(** The requeue step when it applies: the timer is rescheduled relative to
    [now] and linked again. *)
Lemma requeue_periodic_requeues now (s : kstate) (timer : addr) (tm : timer_t) :
  timers s !! timer = Some tm →
  list_in_list tm = false →
  0 < periodic_time tm →
  queue_mapped (timers s) (timer_queue s) →
  ∃ before after,
    requeue_periodic C now true timer s
    = Returns tt
        {| timers := <[timer := mk_timer (magic tm) true (time_add C now (periodic_time tm))
                                 (periodic_time tm) (callback tm) (arg tm)]>
                       (timers s);
           timer_queue := before ++ timer :: after;
           clock := clock s;
           critical_section_count := critical_section_count s;
           platform_calls := platform_calls s |} ∧
    timer_queue s = before ++ after.
Proof.
  intros Ht Hnode Hperiod Hmap.
  set (tm1 := with_scheduled_time (time_add C now (periodic_time tm)) tm).
  set (s1 := set_timers <[timer := tm1]> s).
  destruct (insert_timer_in_queue_split s1 timer tm1)
    as (before & after & Hrun & Hq & _).
  { apply lookup_insert_eq. }
  { by apply queue_mapped_insert. }
  exists before, after. split; [|done].
  unfold requeue_periodic. kstep ltac:(by apply load_returns).
  rewrite Hnode, (proj2 (N.ltb_lt _ _) Hperiod). simpl.
  kstep ltac:(by eapply store_returns). fold tm1 s1. rewrite Hrun.
  f_equal. unfold set_timer_queue, set_timers. simpl.
  by rewrite insert_insert_eq.
Qed.

(** C2, as amended: a timer popped as due at [now] whose callback has
    returned, the queue being well formed.  When its period was nonzero at
    the pop and it is, after the callback, still unlinked with a nonzero
    period, the dispatcher sets its [scheduled_time] to the sum [now +
    periodic_time] of [lk_time_t], that is, modulo [2 ^ LK_TIME_BITS], and
    links it again, and changes nothing else; where the sum does not wrap
    the new deadline is [now + periodic_time] itself.  In every other case
    the dispatcher leaves the state the callback produced untouched.
    Either way the loop goes on from there, and the queue stays well
    formed: no timer is in it twice. *)
Theorem timer_tick_requeues_periodic (fuel : nat) (now : lk_time_t)
    (r : handler_return) (s : kstate) (timer : addr) (tm : timer_t)
    (hint : handler_return) (s1 : kstate) (tm1 : timer_t) :
  head (timer_queue s) = Some timer →
  timers s !! timer = Some tm →
  scheduled_time tm ≤ now →
  (DEBUG_ASSERTS C = true → magic tm = TIMER_MAGIC C) →
  call E (callback tm) timer now (arg tm) (popped timer tm s) = Returns hint s1 →
  timers s1 !! timer = Some tm1 →
  queue_wf s1 →
  ∃ s2,
    requeue_periodic C now (0 <? periodic_time tm) timer s1 = Returns tt s2 ∧
    timer_tick_loop C E (S fuel) now r s
    = (rest <- timer_tick_loop C E fuel now
                 (if decide (hint = INT_RESCHEDULE) then INT_RESCHEDULE else r) ;;
       ret (rest.1, Fired timer (popped timer tm s) hint :: rest.2)) s2 ∧
    (if (0 <? periodic_time tm) && negb (list_in_list tm1)
        && (0 <? periodic_time tm1)
     then
       ∃ before after,
         timer_queue s1 = before ++ after ∧
         s2 = {| timers := <[timer := mk_timer (magic tm1) true
                                         ((now + periodic_time tm1)
                                            mod 2 ^ LK_TIME_BITS C)
                                         (periodic_time tm1)
                                         (callback tm1) (arg tm1)]>
                             (timers s1);
                 timer_queue := before ++ timer :: after;
                 clock := clock s1;
                 critical_section_count := critical_section_count s1;
                 platform_calls := platform_calls s1 |} ∧
         (now + periodic_time tm1 < 2 ^ LK_TIME_BITS C →
          deadline (timers s2) timer = now + periodic_time tm1)
     else s2 = s1) ∧
    queue_wf s2 ∧ NoDup (timer_queue s2).
Proof.
  intros Hhd Ht Hdue Hmagic Hcall Ht1 Hwf.
  assert (Hloop : ∀ s2,
    requeue_periodic C now (0 <? periodic_time tm) timer s1 = Returns tt s2 →
    timer_tick_loop C E (S fuel) now r s
    = (rest <- timer_tick_loop C E fuel now
                 (if decide (hint = INT_RESCHEDULE) then INT_RESCHEDULE else r) ;;
       ret (rest.1, Fired timer (popped timer tm s) hint :: rest.2)) s2).
  { intros s2 Hreq. rewrite (timer_tick_loop_due _ _ _ _ _ _ timer tm) by done.
    kstep ltac:(exact Hcall). by kstep ltac:(exact Hreq). }
  destruct ((0 <? periodic_time tm) && negb (list_in_list tm1)
            && (0 <? periodic_time tm1)) eqn:Hcond.
  - apply andb_prop in Hcond as [[Hwas Hnode]%andb_prop Hperiod].
    apply negb_true_iff in Hnode. apply N.ltb_lt in Hperiod.
    destruct (requeue_periodic_requeues now s1 timer tm1)
      as (before & after & Hreq & Hq); [done|done|done|apply Hwf|].
    rewrite Hwas in *.
    eexists. split; [exact Hreq|]. split; [by apply Hloop|]. split.
    + exists before, after. split_and!; [done|done|].
      intros Hfit. unfold deadline. simpl. rewrite lookup_insert_eq. simpl.
      by apply time_add_small.
    + match goal with |- queue_wf ?s2 ∧ _ =>
        destruct (link_preserves now s1 s2 timer tm1
                    (mk_timer (magic tm1) true (time_add C now (periodic_time tm1))
                       (periodic_time tm1) (callback tm1) (arg tm1))
                    before after) as [Hwf2 _]
      end; try done.
      split; [done|apply Hwf2].
  - assert (Hreq : requeue_periodic C now (0 <? periodic_time tm) timer s1
                   = Returns tt s1)
      by (by apply requeue_periodic_not_periodic with tm1).
    exists s1. split; [done|]. split; [by apply Hloop|].
    split; [done|]. split; [done|apply Hwf].
Qed.

End Requeue.

(** ** The sample kernel, worked through *)

Lemma sample_code_api_driven (C : config) (f : addr) (cb : timer_callback) :
  code (sample_kernel C) f = Some cb → api_driven C cb.
Proof.
  simpl. unfold sample_code.
  destruct (f =? 100); [intros [= <-]|].
  { by exists (λ _ _ _ _, ([], INT_NO_RESCHEDULE)). }
  destruct (f =? 101); [intros [= <-]|].
  { by exists (λ _ _ _ _, ([], INT_RESCHEDULE)). }
  destruct (f =? 102); [intros [= <-]|].
  { by exists (λ timer _ _ _, ([call_timer_cancel timer], INT_RESCHEDULE)). }
  destruct (f =? 103); [intros [= <-]|done].
  by exists (λ timer _ a _,
               ([call_timer_set_oneshot timer 5 103 a], INT_NO_RESCHEDULE)).
Qed.


Lemma armed_mapped : queue_mapped (timers armed) (timer_queue armed).
Proof. repeat constructor; by eexists. Qed.

Lemma armed_wf : queue_wf armed.
Proof.
  split; [|apply armed_mapped|].
  - simpl. apply NoDup_cons. split; [by intros [=]%list_elem_of_singleton|].
    apply NoDup_singleton.
  - intros t tm. simpl.
    rewrite !lookup_insert_Some, lookup_empty.
    intros [[<- <-]|[_ [[<- <-]|[_ [[<- <-]|[_ [[<- <-]|[_ [=]]]]]]]]]; simpl.
    + split; [intros _; by right; left|done].
    + split; [intros _; by left|done].
    + split; [done|]. by intros [[=]|[[=]|[]%elem_of_nil]%elem_of_cons]%elem_of_cons.
    + split; [done|]. by intros [[=]|[[=]|[]%elem_of_nil]%elem_of_cons]%elem_of_cons.
Qed.


Lemma insert_timer_in_queue_sorted_fifo_witness :
  ∃ s' before after,
    insert_timer_in_queue 3 armed = Returns tt s' ∧
    timer_queue armed = before ++ after ∧
    timer_queue s' = before ++ 3 :: after ∧
    (∀ e, deadline (timers s') e = deadline (timers armed) e) ∧
    queue_sorted (timers s') (timer_queue s') ∧
    Forall (λ e, deadline (timers armed) e ≤ scheduled_time unlinked_timer) before ∧
    Forall (λ e, scheduled_time unlinked_timer < deadline (timers armed) e) after ∧
    (∀ i e, timer_queue armed !! i = Some e →
            deadline (timers armed) e = scheduled_time unlinked_timer →
            timer_queue s' !! i = Some e ∧ (i < length before)%nat).
Proof.
  apply (insert_timer_in_queue_sorted_fifo armed 3 unlinked_timer).
  - reflexivity.
  - repeat constructor; by eexists.
  - repeat constructor; by vm_compute.
Defined.

Lemma timer_tick_requeues_periodic_witness :
  ∃ s2,
    requeue_periodic fixed_tick_build 10 (0 <? periodic_time periodic_timer) 2
      (popped 2 periodic_timer armed) = Returns tt s2 ∧
    timers s2 !! 2
    = Some {| magic := 1953066354; node := true; scheduled_time := 13;
              periodic_time := 3; callback := 101; arg := 0 |} ∧
    timer_queue s2 = [1; 2] ∧
    queue_wf s2.
Proof.
  destruct (timer_tick_requeues_periodic fixed_tick_build
              (sample_kernel fixed_tick_build) 2 10 INT_NO_RESCHEDULE armed 2
              periodic_timer INT_RESCHEDULE (popped 2 periodic_timer armed)
              (with_node false periodic_timer))
    as (s2 & Hreq & _ & Hstate & Hwf & _).
  - reflexivity.
  - reflexivity.
  - simpl. lia.
  - reflexivity.
  - reflexivity.
  - reflexivity.
  - apply (unlink_preserves 10 armed _ 2 periodic_timer
             (with_node false periodic_timer) armed_wf); reflexivity.
  - exists s2. split; [exact Hreq|].
    split_and!; [| |exact Hwf].
    + vm_compute in Hreq. by injection Hreq as <-.
    + vm_compute in Hreq. by injection Hreq as <-.
Defined.

(** C2 as stated fails where the sum wraps.  At the last tick of a 64-bit
    [lk_time_t] the head timer, periodic with a period of one tick, is
    due; its callback returns and leaves it unlinked with that period;
    the dispatcher requeues it with the deadline 0, which is not [now +
    period]. *)
Lemma timer_tick_requeue_wraps :
  head (timer_queue at_wrap) = Some 1 ∧
  timers at_wrap !! 1 = Some wrapped_timer ∧
  scheduled_time wrapped_timer ≤ last_tick ∧
  0 < periodic_time wrapped_timer ∧
  call (sample_kernel fixed_tick_build) (callback wrapped_timer) 1 last_tick
    (arg wrapped_timer) (popped 1 wrapped_timer at_wrap)
  = Returns INT_NO_RESCHEDULE (popped 1 wrapped_timer at_wrap) ∧
  timers (popped 1 wrapped_timer at_wrap) !! 1
  = Some (with_node false wrapped_timer) ∧
  requeue_periodic fixed_tick_build last_tick
    (0 <? periodic_time wrapped_timer) 1 (popped 1 wrapped_timer at_wrap)
  = Returns tt at_wrap ∧
  deadline (timers at_wrap) 1 = 0 ∧
  deadline (timers at_wrap) 1 ≠ last_tick + periodic_time wrapped_timer.
Proof.
  split_and!; try reflexivity.
  - by vm_compute.
  - intros H. vm_compute in H. discriminate H.
Qed.

Lemma timer_set_linked_panics_witness :
  timer_set_oneshot fixed_tick_build 1 0 100 0 armed = Panic armed ∧
  timer_set_periodic fixed_tick_build 1 7 100 0 armed = Panic armed.
Proof.
  apply (timer_set_linked_panics fixed_tick_build armed 1 oneshot_timer);
    reflexivity.
Defined.

Lemma timer_tick_loop_fires_due_witness :
  ∃ s0,
    list_delete 2 armed = Returns tt s0 ∧
    (2 ∉ timer_queue s0) ∧
    (NoDup (timer_queue armed) → timer_queue s0 = tail (timer_queue armed)) ∧
    timers s0 !! 2 = Some (with_node false periodic_timer) ∧
    timer_tick_loop fixed_tick_build (sample_kernel fixed_tick_build) 3 10
      INT_NO_RESCHEDULE armed
    = (hint <- call (sample_kernel fixed_tick_build) 101 2 10 0 ;;
       requeue_periodic fixed_tick_build 10 true 2 ;;
       rest <- timer_tick_loop fixed_tick_build (sample_kernel fixed_tick_build)
                 2 10
                 (if decide (hint = INT_RESCHEDULE) then INT_RESCHEDULE
                  else INT_NO_RESCHEDULE) ;;
       ret (rest.1, Fired 2 s0 hint :: rest.2)) s0.
Proof.
  destruct (timer_tick_loop_fires_due fixed_tick_build
              (sample_kernel fixed_tick_build) 2 10 INT_NO_RESCHEDULE armed)
    as (_ & _ & Hdue & _).
  apply (Hdue 2 periodic_timer); [reflexivity|reflexivity|simpl; lia|reflexivity].
Defined.

Lemma timer_set_schedules_witness :
  (∃ s', timer_set_oneshot fixed_tick_build 4 0 100 0 armed = Returns tt s' ∧
         timers s' !! 4
         = Some {| magic := 1953066354; node := true; scheduled_time := 11;
                   periodic_time := 0; callback := 100; arg := 0 |} ∧
         4 ∈ timer_queue s') ∧
  (∃ s', timer_set_periodic fixed_tick_build 4 0 100 0 armed = Returns tt s' ∧
         timers s' !! 4
         = Some {| magic := 1953066354; node := true; scheduled_time := 11;
                   periodic_time := 1; callback := 100; arg := 0 |} ∧
         4 ∈ timer_queue s').
Proof.
  destruct (timer_set_schedules fixed_tick_build armed 4
              (TIMER_INITIAL_VALUE fixed_tick_build) 0 0 100 0)
    as [(s1 & Hrun1 & _ & Hin1 & Hfit1) (s2 & Hrun2 & _ & Hin2 & Hfit2)].
  - reflexivity.
  - reflexivity.
  - reflexivity.
  - apply armed_wf.
  - split; [exists s1|exists s2]; (split; [done|]); (split; [|done]).
    + apply Hfit1. by vm_compute.
    + apply Hfit2. by vm_compute.
Defined.

(** C5 as stated fails where the sum wraps: at the last tick of a 64-bit
    [lk_time_t], [timer_set_oneshot] with a delay of 5 on a fresh timer
    stores the deadline 4, and so does [timer_set_periodic] with a period
    of 5; [now + 5] it is not. *)
Lemma timer_set_wraps :
  timers at_wrap !! 4 = Some (TIMER_INITIAL_VALUE fixed_tick_build) ∧
  (∃ s', timer_set_oneshot fixed_tick_build 4 5 100 0 at_wrap = Returns tt s' ∧
         timers s' !! 4
         = Some {| magic := 1953066354; node := true; scheduled_time := 4;
                   periodic_time := 0; callback := 100; arg := 0 |}) ∧
  (∃ s', timer_set_periodic fixed_tick_build 4 5 100 0 at_wrap = Returns tt s' ∧
         timers s' !! 4
         = Some {| magic := 1953066354; node := true; scheduled_time := 4;
                   periodic_time := 5; callback := 100; arg := 0 |}) ∧
  4 ≠ clock at_wrap + N.max 5 1.
Proof.
  split_and!; [reflexivity| | |].
  - eexists. split; [by vm_compute|reflexivity].
  - eexists. split; [by vm_compute|reflexivity].
  - intros H. vm_compute in H. discriminate H.
Qed.

Lemma timer_cancel_clears_witness :
  ∃ s',
    timer_cancel fixed_tick_build 2 armed = Returns tt s' ∧
    timers s' !! 2
    = Some {| magic := 1953066354; node := false; scheduled_time := 9;
              periodic_time := 0; callback := NULL; arg := NULL |} ∧
    (∀ t, t ≠ 2 → timers s' !! t = timers armed !! t) ∧
    timer_queue s' = [1] ∧
    (list_in_list periodic_timer = true → 2 ∉ timer_queue s') ∧
    clock s' = 10 ∧
    critical_section_count s' = 1%nat ∧
    (∀ now periodic,
       requeue_periodic fixed_tick_build now periodic 2 s' = Returns tt s').
Proof.
  apply (timer_cancel_clears fixed_tick_build armed 2 periodic_timer).
  - reflexivity.
  - reflexivity.
  - repeat constructor; by eexists.
Defined.

Lemma timer_tick_aggregates_hints_witness :
  ∃ evs s',
    timer_tick fixed_tick_build (sample_kernel fixed_tick_build) 3 0 10 armed
    = Returns (INT_RESCHEDULE, evs) s' ∧
    Exists (λ ev, event_hint ev = INT_RESCHEDULE) evs.
Proof.
  eexists _, _.
  assert (Hrun : ∀ o, o = timer_tick fixed_tick_build
                            (sample_kernel fixed_tick_build) 3 0 10 armed →
                 timer_tick fixed_tick_build
                   (sample_kernel fixed_tick_build) 3 0 10 armed = o)
    by (by intros ? ->).
  split.
  - apply Hrun. vm_compute. reflexivity.
  - edestruct (timer_tick_aggregates_hints fixed_tick_build
                 (sample_kernel fixed_tick_build) 3 0 10 armed INT_RESCHEDULE)
      as (_ & Hiff & _); [apply Hrun; vm_compute; reflexivity|].
    by apply Hiff.
Defined.

Lemma timer_tick_rearm_positive_witness :
  ∃ tm,
    timers armed !! 2 = Some tm ∧
    5 < scheduled_time tm ∧
    0 < scheduled_time tm - 5 ∧
    DEBUG_ASSERT dynamic_build (TIME_GT (scheduled_time tm) 5) armed
    = Returns tt armed ∧
    timer_tick dynamic_build (sample_kernel dynamic_build) 1 0 5 armed
    = Returns (INT_NO_RESCHEDULE, [])
        (platform (platform_set_oneshot_timer (scheduled_time tm - 5)) armed).
Proof.
  apply (timer_tick_rearm_positive dynamic_build (sample_kernel dynamic_build)
           1 0 5 armed INT_NO_RESCHEDULE [] armed).
  - reflexivity.
  - reflexivity.
  - intros _. simpl. lia.
Defined.

Lemma timer_cancel_never_armed_witness :
  timer_cancel fixed_tick_build 4 armed = Returns tt armed.
Proof.
  apply (timer_cancel_never_armed fixed_tick_build armed 4). reflexivity.
Defined.

(** C9 as stated fails on a dynamic-timer platform: right after
    [timer_init] and [timer_initialize], with nothing armed, cancelling the
    fresh timer stops the platform timer that [timer_init] had started. *)
Lemma timer_cancel_never_armed_stops_timer :
  (timer_init ;; timer_initialize dynamic_build 4) uninitialized
  = Returns tt booted ∧
  timers booted !! 4 = Some (TIMER_INITIAL_VALUE dynamic_build) ∧
  timer_cancel dynamic_build 4 booted
  = Returns tt (platform platform_stop_timer booted) ∧
  platform_calls (platform platform_stop_timer booted)
  = [platform_stop_timer; platform_set_periodic_timer 10] ∧
  timer_cancel dynamic_build 4 booted ≠ Returns tt booted.
Proof.
  split_and!; [by vm_compute|reflexivity|by vm_compute|reflexivity|].
  intros H. vm_compute in H. discriminate H.
Qed.



(** ** The scenarios of the specification *)

(** A one-shot timer armed at 0 for 5 and a periodic timer armed at 0 with
    period 3: the dispatch at 3 fires the periodic timer, the one at 5 the
    one-shot timer, the one at 6 the periodic timer again, which is then
    queued for 9. *)
Example scenario_periodic_runs :
  observe (scenario_periodic blank) = Some (([2], [1], [2]), [(2, 9)]).
Proof. by vm_compute. Qed.

(** Two timers armed for the same deadline stand in the queue in the order
    they were armed and fire in that order. *)
Example scenario_ties_runs :
  observe (scenario_ties blank) = Some (([1; 2], [1; 2]), []).
Proof. by vm_compute. Qed.

(** A periodic timer whose callback cancels it is not in the queue after
    the dispatch. *)
Example scenario_self_cancel_runs :
  observe (scenario_self_cancel blank) = Some ([1], []).
Proof. by vm_compute. Qed.

(** A periodic timer whose callback arms it again, for 5 ticks after the
    firing at 3, is in the queue once, with the deadline the callback
    chose. *)
Example scenario_self_rearm_runs :
  observe (scenario_self_rearm blank) = Some ([1], [(1, 8)]).
Proof. by vm_compute. Qed.

(** ** Further properties: the queue across the whole lifecycle *)

Lemma queue_sorted_ext_in (ts ts' : gmap N timer_t) (q : list N) :
  (∀ e, e ∈ q → deadline ts' e = deadline ts e) →
  queue_sorted ts q → queue_sorted ts' q.
Proof.
  unfold queue_sorted. induction q as [|x q IH]; intros Hext Hs; [constructor|].
  apply StronglySorted_cons in Hs as [Hx Hq].
  apply StronglySorted_cons. split.
  - rewrite Forall_forall in *. intros y Hy.
    rewrite !Hext; [by apply Hx|by right|by left].
  - apply IH; [|done]. intros e He. apply Hext. by right.
Qed.

Lemma queue_sorted_filter (ts : gmap N timer_t) (P : N → Prop)
    `{∀ e, Decision (P e)} (q : list N) :
  queue_sorted ts q → queue_sorted ts (filter P q).
Proof.
  unfold queue_sorted. induction q as [|x q IH]; intros Hs; [constructor|].
  apply StronglySorted_cons in Hs as [Hx Hq].
  rewrite filter_cons. destruct (decide (P x)); [|by apply IH].
  apply StronglySorted_cons. split; [|by apply IH].
  rewrite Forall_forall in *. intros y [_ Hy]%list_elem_of_filter. by apply Hx.
Qed.

(** Linking an unlinked timer at the place the scan of
    [insert_timer_in_queue] finds keeps the queue sorted. *)
Lemma link_sorted s s' timer tm0 tm' before after :
  queue_wf s →
  queue_sorted (timers s) (timer_queue s) →
  timers s !! timer = Some tm0 →
  list_in_list tm0 = false →
  timer_queue s = before ++ after →
  Forall (λ e, deadline (timers s) e ≤ scheduled_time tm') before →
  (∀ e, head after = Some e → scheduled_time tm' < deadline (timers s) e) →
  timers s' = <[timer := tm']> (timers s) →
  timer_queue s' = before ++ timer :: after →
  queue_sorted (timers s') (timer_queue s').
Proof.
  intros Hwf Hsorted Ht Hnode Hq Hbefore Hafter Hts' Hq'.
  pose proof (wf_unlinked_absent s timer tm0 Hwf Ht Hnode) as Habs.
  rewrite Hq in Hsorted, Habs.
  assert (Hsame : ∀ e, e ≠ timer → deadline (timers s') e = deadline (timers s) e).
  { intros e He. unfold deadline. by rewrite Hts', lookup_insert_ne. }
  assert (Hnew : deadline (timers s') timer = scheduled_time tm').
  { unfold deadline. by rewrite Hts', lookup_insert_eq. }
  assert (Habove : Forall (λ e, scheduled_time tm' < deadline (timers s) e) after).
  { apply sorted_tail_above; [|done]. by apply StronglySorted_app_1_r in Hsorted. }
  rewrite Hq'. unfold queue_sorted in *.
  rewrite !StronglySorted_app, StronglySorted_cons in *.
  destruct Hsorted as (Hcross & Hb & Ha).
  assert (Hinb : ∀ e, e ∈ before → e ≠ timer).
  { intros e He ->. apply Habs, elem_of_app. by left. }
  assert (Hina : ∀ e, e ∈ after → e ≠ timer).
  { intros e He ->. apply Habs, elem_of_app. by right. }
  rewrite Forall_forall in Hbefore, Habove.
  split_and!.
  - intros x1 x2 Hx1 [->|Hx2]%elem_of_cons.
    + rewrite Hnew, Hsame by auto. auto.
    + rewrite !Hsame by auto. auto.
  - apply (queue_sorted_ext_in (timers s)); [|done]. intros; auto.
  - rewrite Forall_forall. intros y Hy. rewrite Hnew, Hsame by auto.
    apply N.lt_le_incl. auto.
  - apply (queue_sorted_ext_in (timers s)); [|done]. intros; auto.
Qed.

(** Unlinking a timer, or rewriting an unlinked one, keeps the queue
    sorted. *)
Lemma unlink_sorted s s' timer tm' :
  queue_sorted (timers s) (timer_queue s) →
  timers s' = <[timer := tm']> (timers s) →
  timer_queue s' = filter (λ e, e ≠ timer) (timer_queue s) →
  queue_sorted (timers s') (timer_queue s').
Proof.
  intros Hsorted Hts' Hq'. rewrite Hq'.
  apply (queue_sorted_ext_in (timers s)).
  - intros e [He _]%list_elem_of_filter. unfold deadline.
    by rewrite Hts', lookup_insert_ne.
  - by apply queue_sorted_filter.
Qed.

Section LifecycleInvariants.

Context (C : config).

(** [timer_set] on an unlinked timer, in full: the state it returns, the
    place of the timer in the queue and the call to the platform driver. *)
Lemma timer_set_arms s timer tm delay period cb a :
  queue_wf s →
  timers s !! timer = Some tm →
  (DEBUG_ASSERTS C = true → magic tm = TIMER_MAGIC C) →
  list_in_list tm = false →
  ∃ before after,
    timer_queue s = before ++ after ∧
    Forall (λ e, deadline (timers s) e ≤ time_add C (clock s) delay) before ∧
    (∀ e, head after = Some e → time_add C (clock s) delay < deadline (timers s) e) ∧
    timer_set C timer delay period cb a s
    = Returns tt
        {| timers := <[timer := mk_timer (magic tm) true (time_add C (clock s) delay)
                                 period cb a]> (timers s);
           timer_queue := before ++ timer :: after;
           clock := clock s;
           critical_section_count := critical_section_count s;
           platform_calls :=
             if PLATFORM_HAS_DYNAMIC_TIMER C
                && bool_decide (head (before ++ timer :: after) = Some timer)
             then platform_set_oneshot_timer delay :: platform_calls s
             else platform_calls s |}.
Proof.
  intros Hwf Ht Hmagic Hnode.
  pose proof (wf_unlinked_absent s timer tm Hwf Ht Hnode) as Habs.
  unfold list_in_list in Hnode.
  set (tm' := mk_timer (magic tm) false (time_add C (clock s) delay) period cb a).
  set (s1 := set_critical_section_count S (set_timers <[timer := tm']> s)).
  destruct (insert_timer_in_queue_split s1 timer tm')
    as (before & after & Hrun & Hq & Hbefore & Hafter).
  { simpl. apply lookup_insert_eq. }
  { simpl. apply queue_mapped_insert, Hwf. }
  simpl in Hq, Hbefore, Hafter.
  assert (Hsame : ∀ e, e ∈ timer_queue s →
            deadline (<[timer := tm']> (timers s)) e = deadline (timers s) e).
  { intros e He. unfold deadline. rewrite lookup_insert_ne; [done|].
    by intros ->. }
  exists before, after. split_and!; [done| | |].
  - rewrite Forall_forall in *. intros e He.
    rewrite <- Hsame; [by apply Hbefore|]. rewrite Hq, elem_of_app. by left.
  - intros e He. rewrite <- Hsame; [by apply Hafter|].
    rewrite Hq, elem_of_app. right. destruct after; [done|].
    injection He as ->. by left.
  - unfold timer_set.
    kstep ltac:(by apply load_returns).
    kstep ltac:(apply DEBUG_ASSERT_holds; intros; apply magic_check; auto).
    unfold list_in_list. rewrite Hnode.
    kstep ltac:(reflexivity). kstep ltac:(reflexivity).
    kstep ltac:(by eapply store_returns).
    kstep ltac:(reflexivity). fold tm' s1.
    kstep ltac:(exact Hrun).
    destruct (PLATFORM_HAS_DYNAMIC_TIMER C); simpl.
    + destruct (bool_decide (head (before ++ timer :: after) = Some timer))
        eqn:Hhd.
      all: kstep ltac:(kstep ltac:(reflexivity); unfold when; simpl;
                       rewrite Hhd; reflexivity).
      all: unfold exit_critical_section, modify; f_equal.
      all: unfold set_critical_section_count, set_timer_queue, set_timers,
             platform; simpl.
      all: by rewrite insert_insert_eq.
    + kstep ltac:(reflexivity).
      unfold exit_critical_section, modify. f_equal.
      unfold set_critical_section_count, set_timer_queue, set_timers. simpl.
      by rewrite insert_insert_eq.
Qed.

End LifecycleInvariants.

Section CancelFull.

Context (C : config).

(** [timer_cancel] in full: the state it returns and what it asks of the
    platform driver. *)
Lemma timer_cancel_full s timer tm :
  timers s !! timer = Some tm →
  (DEBUG_ASSERTS C = true → magic tm = TIMER_MAGIC C) →
  queue_mapped (timers s) (timer_queue s) →
  let q' := if list_in_list tm then filter (λ e, e ≠ timer) (timer_queue s)
            else timer_queue s in
  timer_cancel C timer s
  = Returns tt
      {| timers := <[timer := cancelled tm]> (timers s);
         timer_queue := q';
         clock := clock s;
         critical_section_count := critical_section_count s;
         platform_calls :=
           if PLATFORM_HAS_DYNAMIC_TIMER C then
             match head q' with
             | None => platform_stop_timer :: platform_calls s
             | Some nh =>
                 if bool_decide (Some nh ≠ head (timer_queue s)) then
                   platform_set_oneshot_timer
                     (if deadline (timers s) nh <? clock s then 0
                      else deadline (timers s) nh - clock s)
                   :: platform_calls s
                 else platform_calls s
             end
           else platform_calls s |}.
Proof.
  intros Ht Hmagic Hmap q'.
  unfold timer_cancel.
  kstep ltac:(by apply load_returns).
  kstep ltac:(apply DEBUG_ASSERT_holds; intros; apply magic_check; auto).
  kstep ltac:(reflexivity).
  set (s1 := set_critical_section_count S s).
  set (old := if PLATFORM_HAS_DYNAMIC_TIMER C then head (timer_queue s) else None).
  kstep ltac:(instantiate (1 := s1); instantiate (1 := old); subst old;
              by destruct (PLATFORM_HAS_DYNAMIC_TIMER C)).
  set (s2 := if list_in_list tm
             then set_timer_queue (filter (λ e, e ≠ timer))
                    (set_timers <[timer := with_node false tm]> s1)
             else s1).
  kstep ltac:(instantiate (1 := s2); instantiate (1 := tt); subst s2;
              unfold when; destruct (list_in_list tm);
              [by apply list_delete_returns | done]).
  assert (Ht2 : timers s2 !! timer = Some (with_node false tm)).
  { subst s2. unfold list_in_list. destruct (node tm) eqn:Hn; simpl.
    - apply lookup_insert_eq.
    - by rewrite <- Hn, with_node_same. }
  kstep ltac:(by apply load_returns).
  kstep ltac:(by eapply store_returns).
  set (s3 := set_timers <[timer := cancelled tm]> s2).
  assert (Hs3 : timers s3 = <[timer := cancelled tm]> (timers s) ∧
                timer_queue s3 = q' ∧
                clock s3 = clock s ∧
                critical_section_count s3 = S (critical_section_count s) ∧
                platform_calls s3 = platform_calls s).
  { subst s3 s2 s1 q'. destruct (list_in_list tm); simpl; [|done].
    by rewrite insert_insert_eq. }
  destruct Hs3 as (Hts & Hq & Hclock & Hcsc & Hcalls).
  assert (Hmap' : queue_mapped (timers s) q').
  { subst q'. destruct (list_in_list tm); [by apply queue_mapped_filter|done]. }
  assert (Hdl : ∀ e, deadline (timers s3) e = deadline (timers s) e).
  { intros e. rewrite Hts. by apply deadline_insert_same with tm. }
  change (set_timers _ s2) with s3. clearbody s3. clear Ht2. clearbody s2.
  destruct s3 as [ts3 q3 c3 n3 calls3]. simpl in *. subst.
  destruct (PLATFORM_HAS_DYNAMIC_TIMER C) eqn:Hdyn; subst old.
  - destruct q' as [|nh q''] eqn:Hq'.
    + kstep ltac:(kstep ltac:(reflexivity); reflexivity).
      reflexivity.
    + simpl. destruct (bool_decide (Some nh ≠ head (timer_queue s))) eqn:Hne.
      * apply Forall_cons in Hmap' as [[e He] _].
        assert (He3 : <[timer:=cancelled tm]> (timers s) !! nh
                      = Some (if decide (timer = nh) then cancelled tm else e)).
        { rewrite lookup_insert. by destruct (decide (timer = nh)). }
        kstep ltac:(kstep ltac:(reflexivity); simpl; rewrite Hne;
                    kstep ltac:(apply load_returns; exact He3);
                    kstep ltac:(reflexivity); reflexivity).
        unfold exit_critical_section, modify, TIME_LT. f_equal.
        unfold set_critical_section_count, platform. simpl.
        specialize (Hdl nh). unfold deadline in Hdl at 1. simpl in Hdl.
        rewrite He3 in Hdl. by rewrite Hdl.
      * kstep ltac:(kstep ltac:(reflexivity); simpl; rewrite Hne; reflexivity).
        reflexivity.
  - kstep ltac:(reflexivity). reflexivity.
Qed.

End CancelFull.

Section QueueInvariant.

Context (C : config).

Lemma timer_set_keeps s timer tm delay period cb a :
  queue_ok s →
  timers s !! timer = Some tm →
  (DEBUG_ASSERTS C = true → magic tm = TIMER_MAGIC C) →
  list_in_list tm = false →
  ∃ s', timer_set C timer delay period cb a s = Returns tt s' ∧ queue_ok s'.
Proof.
  intros [Hwf Hsorted] Ht Hmagic Hnode.
  destruct (timer_set_arms C s timer tm delay period cb a Hwf Ht Hmagic Hnode)
    as (before & after & Hq & Hbefore & Hafter & Hrun).
  eexists. split; [exact Hrun|].
  set (tm' := mk_timer (magic tm) true (time_add C (clock s) delay) period cb a).
  split.
  - by eapply (link_preserves 0 s _ timer tm tm' before after).
  - by eapply (link_sorted s _ timer tm tm' before after).
Qed.

Lemma timer_cancel_keeps s timer tm :
  queue_ok s →
  timers s !! timer = Some tm →
  (DEBUG_ASSERTS C = true → magic tm = TIMER_MAGIC C) →
  ∃ s', timer_cancel C timer s = Returns tt s' ∧ queue_ok s' ∧
        timer_queue s' = filter (λ e, e ≠ timer) (timer_queue s).
Proof.
  intros [Hwf Hsorted] Ht Hmagic.
  pose proof (timer_cancel_full C s timer tm Ht Hmagic (wf_mapped s Hwf))
    as Hrun. cbv zeta in Hrun.
  eexists. split; [exact Hrun|].
  assert (Hq : (if list_in_list tm then filter (λ e, e ≠ timer) (timer_queue s)
                else timer_queue s)
               = filter (λ e, e ≠ timer) (timer_queue s)).
  { destruct (list_in_list tm) eqn:Hnode; [done|].
    symmetry. apply filter_ne_absent. by eapply wf_unlinked_absent. }
  split; [split|done].
  - by eapply (unlink_preserves 0 s _ timer tm (cancelled tm)).
  - by eapply (unlink_sorted s _ timer (cancelled tm)).
Qed.

End QueueInvariant.

Section QueueInvariant2.

Context (C : config).

Lemma timer_set_returns_inv s timer delay period cb a u s' :
  timer_set C timer delay period cb a s = Returns u s' →
  ∃ tm, timers s !! timer = Some tm ∧
        (DEBUG_ASSERTS C = true → magic tm = TIMER_MAGIC C) ∧
        list_in_list tm = false.
Proof.
  intros Hrun.
  destruct (timers s !! timer) as [tm|] eqn:Ht.
  2:{ unfold timer_set in Hrun. by rewrite bind_fault in Hrun by (by apply load_fault). }
  exists tm. unfold timer_set in Hrun.
  rewrite (bind_returns _ _ _ _ _ (load_returns _ _ _ Ht)) in Hrun.
  destruct (DEBUG_ASSERTS C && negb (magic tm =? TIMER_MAGIC C)) eqn:Hassert.
  { by rewrite (bind_panic _ _ _ _ (DEBUG_ASSERT_fails C _ _ Hassert)) in Hrun. }
  rewrite (bind_returns _ _ _ _ _ (DEBUG_ASSERT_passes C _ _ Hassert)) in Hrun.
  destruct (list_in_list tm) eqn:Hnode.
  { by rewrite (bind_panic _ _ s s) in Hrun. }
  split_and!; [done|by apply magic_checked|done].
Qed.

Lemma timer_cancel_returns_inv s timer u s' :
  timer_cancel C timer s = Returns u s' →
  ∃ tm, timers s !! timer = Some tm ∧
        (DEBUG_ASSERTS C = true → magic tm = TIMER_MAGIC C).
Proof.
  intros Hrun.
  destruct (timers s !! timer) as [tm|] eqn:Ht.
  2:{ unfold timer_cancel in Hrun. by rewrite bind_fault in Hrun by (by apply load_fault). }
  exists tm. unfold timer_cancel in Hrun.
  rewrite (bind_returns _ _ _ _ _ (load_returns _ _ _ Ht)) in Hrun.
  destruct (DEBUG_ASSERTS C && negb (magic tm =? TIMER_MAGIC C)) eqn:Hassert.
  { by rewrite (bind_panic _ _ _ _ (DEBUG_ASSERT_fails C _ _ Hassert)) in Hrun. }
  split; [done|by apply magic_checked].
Qed.

Lemma timer_set_keeps_queue_inv timer delay period cb a :
  keeps_queue (timer_set C timer delay period cb a).
Proof.
  intros s u s' Hok Hrun.
  destruct (timer_set_returns_inv _ _ _ _ _ _ _ _ Hrun) as (tm & Ht & Hmagic & Hnode).
  destruct (timer_set_keeps C s timer tm delay period cb a Hok Ht Hmagic Hnode)
    as (s'' & Hrun' & Hok').
  rewrite Hrun in Hrun'. by injection Hrun' as _ ->.
Qed.

Lemma timer_cancel_keeps_queue_inv timer :
  keeps_queue (timer_cancel C timer).
Proof.
  intros s u s' Hok Hrun.
  destruct (timer_cancel_returns_inv _ _ _ _ Hrun) as (tm & Ht & Hmagic).
  destruct (timer_cancel_keeps C s timer tm Hok Ht Hmagic)
    as (s'' & Hrun' & Hok' & _).
  rewrite Hrun in Hrun'. by injection Hrun' as _ ->.
Qed.

Lemma run_api_call_keeps_queue c : keeps_queue (run_api_call C c).
Proof.
  destruct c as [timer delay cb a|timer period cb a|timer|ticks]; simpl.
  - apply timer_set_keeps_queue_inv.
  - apply timer_set_keeps_queue_inv.
  - apply timer_cancel_keeps_queue_inv.
  - intros s u s' [[Hnd Hmap Hlink] Hsorted] [= _ <-]. by split.
Qed.

Lemma run_api_calls_keeps_queue cs : keeps_queue (run_api_calls C cs).
Proof.
  induction cs as [|c cs IH]; simpl.
  - by intros s u s' Hok [= _ <-].
  - intros s u s' Hok Hrun.
    apply bind_returns_inv in Hrun as (u1 & s1 & Hc & Hrest).
    eapply IH; [|exact Hrest]. by eapply run_api_call_keeps_queue.
Qed.

(** X1: on a well-formed, sorted queue, arming a valid unlinked timer with
    [timer_set_oneshot] or [timer_set_periodic] returns, and the queue is
    again well formed, with no timer in it twice, and sorted. *)
Theorem timer_set_keeps_queue_sorted (s : kstate) (timer : addr) (tm : timer_t)
    (delay period cb a : N) :
  queue_wf s →
  queue_sorted (timers s) (timer_queue s) →
  timers s !! timer = Some tm →
  magic tm = TIMER_MAGIC C →
  list_in_list tm = false →
  (∃ s', timer_set_oneshot C timer delay cb a s = Returns tt s' ∧
         queue_wf s' ∧ queue_sorted (timers s') (timer_queue s')) ∧
  (∃ s', timer_set_periodic C timer period cb a s = Returns tt s' ∧
         queue_wf s' ∧ queue_sorted (timers s') (timer_queue s')).
Proof.
  intros Hwf Hsorted Ht Hmagic Hnode. split.
  - unfold timer_set_oneshot.
    destruct (timer_set_keeps C s timer tm (if delay =? 0 then 1 else delay) 0
                cb a (conj Hwf Hsorted) Ht (λ _, Hmagic) Hnode)
      as (s' & Hrun & Hok & Hs). by exists s'.
  - unfold timer_set_periodic.
    destruct (timer_set_keeps C s timer tm (if period =? 0 then 1 else period)
                (if period =? 0 then 1 else period) cb a (conj Hwf Hsorted) Ht
                (λ _, Hmagic) Hnode)
      as (s' & Hrun & Hok & Hs). by exists s'.
Qed.

(** X2: on a well-formed, sorted queue, [timer_cancel] of a valid timer
    returns with the queue well formed and sorted; the queue is the old one
    without this timer, the order of the others kept. *)
Theorem timer_cancel_keeps_queue_sorted (s : kstate) (timer : addr) (tm : timer_t) :
  queue_wf s →
  queue_sorted (timers s) (timer_queue s) →
  timers s !! timer = Some tm →
  magic tm = TIMER_MAGIC C →
  ∃ s', timer_cancel C timer s = Returns tt s' ∧
        queue_wf s' ∧ queue_sorted (timers s') (timer_queue s') ∧
        timer_queue s' = filter (λ e, e ≠ timer) (timer_queue s).
Proof.
  intros Hwf Hsorted Ht Hmagic.
  destruct (timer_cancel_keeps C s timer tm (conj Hwf Hsorted) Ht (λ _, Hmagic))
    as (s' & Hrun & [Hwf' Hs'] & Hq).
  by exists s'.
Qed.

(** X3: from [timer_init] on, with no timer linked at that point, every
    sequence of [timer_set_oneshot], [timer_set_periodic] and
    [timer_cancel] calls that returns, with time passing in between, leaves
    the queue well formed and sorted by deadline. *)
Theorem api_calls_from_init_keep_queue_sorted (s : kstate)
    (cs : list api_call) (s' : kstate) :
  all_unlinked s →
  (timer_init ;; run_api_calls C cs) s = Returns tt s' →
  queue_wf s' ∧ queue_sorted (timers s') (timer_queue s').
Proof.
  intros Hun Hrun.
  apply bind_returns_inv in Hrun as ([] & s0 & Hinit & Hrun).
  unfold timer_init in Hinit. injection Hinit as <-.
  eapply run_api_calls_keeps_queue; [|exact Hrun].
  split; [split|]; simpl.
  - constructor.
  - constructor.
  - intros t tm Ht. rewrite (Hun t tm Ht). split; [done|].
    by intros []%elem_of_nil.
  - constructor.
Qed.

End QueueInvariant2.

Lemma sorted_drained_none_due now s :
  queue_sorted (timers s) (timer_queue s) →
  drained now s →
  Forall (λ e, now < deadline (timers s) e) (timer_queue s).
Proof.
  intros Hsorted Hdr. apply sorted_tail_above; [done|].
  intros e He. unfold drained in Hdr. rewrite He in Hdr.
  destruct Hdr as (tm & Ht & Hlt). unfold deadline. by rewrite Ht.
Qed.

Lemma none_due_filter now s :
  Forall (λ e, now < deadline (timers s) e) (timer_queue s) →
  due_entries now s = [].
Proof.
  unfold due_entries. induction 1 as [|x l Hx Hl IH]; [done|].
  rewrite filter_cons_False by lia. done.
Qed.

Lemma link_due_entries now s s' timer tm0 tm' before after :
  queue_wf s →
  timers s !! timer = Some tm0 →
  list_in_list tm0 = false →
  timer_queue s = before ++ after →
  timers s' = <[timer := tm']> (timers s) →
  timer_queue s' = before ++ timer :: after →
  now < scheduled_time tm' →
  due_entries now s' = due_entries now s.
Proof.
  intros Hwf Ht Hnode Hq Hts' Hq' Hlate.
  pose proof (wf_unlinked_absent s timer tm0 Hwf Ht Hnode) as Habs.
  unfold due_entries. rewrite Hq', Hq, Hts'.
  rewrite !filter_app, filter_cons_False.
  2:{ unfold deadline. rewrite lookup_insert_eq. lia. }
  rewrite <- !filter_app. rewrite <- Hq.
  apply due_filter_ext. intros e He. unfold deadline.
  rewrite lookup_insert_ne; [done|]. by intros ->.
Qed.

(** The requeue step when it applies, in full. *)
Lemma requeue_periodic_links (C : config) now s timer tm :
  queue_wf s →
  timers s !! timer = Some tm →
  list_in_list tm = false →
  0 < periodic_time tm →
  ∃ before after,
    timer_queue s = before ++ after ∧
    Forall (λ e, deadline (timers s) e ≤ time_add C now (periodic_time tm)) before ∧
    (∀ e, head after = Some e → time_add C now (periodic_time tm) < deadline (timers s) e) ∧
    requeue_periodic C now true timer s
    = Returns tt
        {| timers := <[timer := mk_timer (magic tm) true (time_add C now (periodic_time tm))
                                 (periodic_time tm) (callback tm) (arg tm)]>
                       (timers s);
           timer_queue := before ++ timer :: after;
           clock := clock s;
           critical_section_count := critical_section_count s;
           platform_calls := platform_calls s |}.
Proof.
  intros Hwf Ht Hnode Hperiod.
  pose proof (wf_unlinked_absent s timer tm Hwf Ht Hnode) as Habs.
  set (tm1 := with_scheduled_time (time_add C now (periodic_time tm)) tm).
  set (s1 := set_timers <[timer := tm1]> s).
  destruct (insert_timer_in_queue_split s1 timer tm1)
    as (before & after & Hrun & Hq & Hbefore & Hafter).
  { apply lookup_insert_eq. }
  { apply queue_mapped_insert, Hwf. }
  simpl in Hq, Hbefore, Hafter.
  assert (Hsame : ∀ e, e ∈ timer_queue s →
            deadline (<[timer := tm1]> (timers s)) e = deadline (timers s) e).
  { intros e He. unfold deadline. rewrite lookup_insert_ne; [done|].
    by intros ->. }
  exists before, after. split_and!; [done| | |].
  - rewrite Forall_forall in *. intros e He.
    rewrite <- Hsame; [by apply Hbefore|]. rewrite Hq, elem_of_app. by left.
  - intros e He. rewrite <- Hsame; [by apply Hafter|].
    rewrite Hq, elem_of_app. right. destruct after; [done|].
    injection He as ->. by left.
  - unfold requeue_periodic. kstep ltac:(by apply load_returns).
    rewrite Hnode, (proj2 (N.ltb_lt _ _) Hperiod). simpl.
    kstep ltac:(by eapply store_returns). fold tm1 s1. rewrite Hrun.
    f_equal. unfold set_timer_queue, set_timers. simpl.
    by rewrite insert_insert_eq.
Qed.

Lemma popped_keeps timer tm s :
  queue_ok s → timers s !! timer = Some tm → queue_ok (popped timer tm s).
Proof.
  intros [Hwf Hsorted] Ht. split.
  - by eapply (unlink_preserves 0 s _ timer tm (with_node false tm)).
  - by eapply (unlink_sorted s _ timer (with_node false tm)).
Qed.

Lemma requeue_periodic_keeps (C : config) now periodic timer :
  keeps_queue (requeue_periodic C now periodic timer).
Proof.
  intros s u s' [Hwf Hsorted] Hrun.
  destruct (timers s !! timer) as [tm|] eqn:Ht.
  2:{ unfold requeue_periodic in Hrun.
      by rewrite bind_fault in Hrun by (by apply load_fault). }
  destruct (periodic && negb (list_in_list tm) && (0 <? periodic_time tm)) eqn:Hcond.
  2:{ rewrite (requeue_periodic_not_periodic C s timer tm) in Hrun by done.
      injection Hrun as _ <-. by split. }
  apply andb_prop in Hcond as [[-> Hnode]%andb_prop Hperiod].
  apply negb_true_iff in Hnode. apply N.ltb_lt in Hperiod.
  destruct (requeue_periodic_links C now s timer tm Hwf Ht Hnode Hperiod)
    as (before & after & Hq & Hbefore & Hafter & Hrun').
  rewrite Hrun' in Hrun. injection Hrun as _ <-.
  set (tm' := mk_timer (magic tm) true (time_add C now (periodic_time tm))
                (periodic_time tm) (callback tm) (arg tm)).
  split.
  - by eapply (link_preserves 0 s _ timer tm tm' before after).
  - by eapply (link_sorted s _ timer tm tm' before after).
Qed.

Section DispatchInvariant.

Context (C : config) (E : kernel).

Lemma call_keeps_queue f timer now a s hint s' :
  (∀ f cb, code E f = Some cb → api_driven C cb) →
  queue_ok s →
  call E f timer now a s = Returns hint s' →
  queue_ok s'.
Proof.
  intros Hcode Hok Hrun. unfold call in Hrun.
  destruct (code E f) as [cb|] eqn:Hf; [|done].
  destruct (Hcode f cb Hf) as [body Hbody]. rewrite Hbody in Hrun.
  apply bind_returns_inv in Hrun as ([] & s1 & Hcalls & Hret).
  injection Hret as _ <-. by eapply run_api_calls_keeps_queue.
Qed.

Lemma timer_tick_loop_keeps_queue fuel now r s r' evs s' :
  (∀ f cb, code E f = Some cb → api_driven C cb) →
  queue_ok s →
  timer_tick_loop C E fuel now r s = Returns (r', evs) s' →
  queue_ok s'.
Proof.
  intros Hcode. revert r s r' evs s'.
  induction fuel as [|fuel IH]; intros r s r' evs s' Hok Hrun; [done|].
  apply timer_tick_loop_returns_inv in Hrun
    as [(_ & _ & -> & _)|(timer & tm & hint & s1 & s2 & [r2 evs2] & Hhd & Ht
                          & Hdue & Hcall & Hreq & Hrest & _ & _)]; [done|].
  eapply IH; [|exact Hrest].
  eapply requeue_periodic_keeps; [|exact Hreq].
  eapply call_keeps_queue; [done| |exact Hcall].
  by apply popped_keeps.
Qed.

(** X4: a run of the drain loop at [now] that returns, with callbacks that
    act through the timer API, takes a well-formed sorted queue to a
    well-formed sorted queue in which every entry, not only the head, is
    scheduled strictly after [now]: no due timer is left behind. *)
Theorem timer_tick_loop_leaves_none_due (fuel : nat) (now : lk_time_t)
    (r : handler_return) (s : kstate) (r' : handler_return)
    (evs : list tick_event) (s' : kstate) :
  (∀ f cb, code E f = Some cb → api_driven C cb) →
  queue_wf s →
  queue_sorted (timers s) (timer_queue s) →
  timer_tick_loop C E fuel now r s = Returns (r', evs) s' →
  queue_wf s' ∧
  queue_sorted (timers s') (timer_queue s') ∧
  Forall (λ e, now < deadline (timers s') e) (timer_queue s').
Proof.
  intros Hcode Hwf Hsorted Hrun.
  destruct (timer_tick_loop_keeps_queue _ _ _ _ _ _ _ Hcode (conj Hwf Hsorted) Hrun)
    as [Hwf' Hsorted'].
  split_and!; [done|done|].
  apply sorted_drained_none_due; [done|].
  by apply timer_tick_loop_returns in Hrun as (_ & _ & ?).
Qed.

End DispatchInvariant.

Section DispatchOrder.

Context (C : config) (E : kernel).

Lemma linked_timers_quiet_insert now s s' timer tm tm' :
  linked_timers_quiet C E now s →
  timers s !! timer = Some tm →
  timers s' = <[timer := tm']> (timers s) →
  (list_in_list tm' = true →
   magic tm' = TIMER_MAGIC C ∧
   (∃ cb, code E (callback tm') = Some cb ∧ quiet cb) ∧
   (scheduled_time tm' ≤ now → now + periodic_time tm' < 2 ^ LK_TIME_BITS C)) →
  linked_timers_quiet C E now s'.
Proof.
  intros Hq Ht Hts' Hlinked t tm1. rewrite Hts'.
  destruct (decide (timer = t)) as [->|Hne].
  - rewrite lookup_insert_eq. intros [= <-] Hn. auto.
  - rewrite lookup_insert_ne by done. apply Hq.
Qed.

(** X5: with every linked timer valid, its callback quiet and its period
    not wrapping when added to [now], the drain loop at [now] on a
    well-formed sorted queue returns as soon as its fuel exceeds the number
    of due entries; it has then fired exactly the entries that were due,
    each once, in queue order, that is by deadline and among equal
    deadlines in the order of arming; and the queue it leaves is well
    formed, sorted, and holds nothing due. *)
Theorem drain_fires_due_entries_in_order (fuel : nat) (now : lk_time_t)
    (r : handler_return) (s : kstate) :
  queue_wf s →
  queue_sorted (timers s) (timer_queue s) →
  linked_timers_quiet C E now s →
  (length (due_entries now s) < fuel)%nat →
  ∃ r' evs s',
    timer_tick_loop C E fuel now r s = Returns (r', evs) s' ∧
    fired_timers evs = due_entries now s ∧
    queue_wf s' ∧
    queue_sorted (timers s') (timer_queue s') ∧
    due_entries now s' = [].
Proof.
  revert r s. induction fuel as [|fuel IH]; intros r s Hwf Hsorted Hquiet Hfuel;
    [lia|].
  destruct (head (timer_queue s)) as [timer|] eqn:Hhd.
  2:{ exists r, [], s.
      assert (Hq : timer_queue s = []) by (by destruct (timer_queue s)).
      rewrite timer_tick_loop_empty by done.
      assert (Hnone : due_entries now s = [])
        by (unfold due_entries; by rewrite Hq).
      rewrite Hnone. by split_and!. }
  assert (Hin : timer ∈ timer_queue s).
  { destruct (timer_queue s); [done|]. injection Hhd as ->. by left. }
  destruct (wf_lookup s timer Hwf Hin) as [tm Ht].
  destruct (decide (now < scheduled_time tm)) as [Hlt|Hge].
  { exists r, [], s.
    rewrite (timer_tick_loop_future _ _ _ _ _ _ timer tm) by done.
    assert (Hnone : due_entries now s = []).
    { apply none_due_filter, sorted_drained_none_due; [done|].
      unfold drained. rewrite Hhd. eauto. }
    rewrite Hnone. by split_and!. }
  assert (Hnode : list_in_list tm = true) by (by apply (wf_linked s Hwf timer tm Ht)).
  destruct (Hquiet timer tm Ht Hnode) as (Hmagic & (cb & Hcb & Hcbq) & Hfit).
  assert (Hfits : now + periodic_time tm < 2 ^ LK_TIME_BITS C) by (apply Hfit; lia).
  set (s0 := popped timer tm s).
  destruct (Hcbq timer now (arg tm) s0) as [hint Hcall].
  assert (Hok0 : queue_ok s0) by (by apply popped_keeps).
  assert (Hq0 : timer_queue s = timer :: timer_queue s0).
  { destruct (timer_queue s) as [|x q] eqn:Hq; [done|]. injection Hhd as ->.
    subst s0. simpl. rewrite Hq. f_equal. symmetry. apply filter_ne_head.
    rewrite <- Hq. apply Hwf. }
  assert (Hdue0 : due_entries now s = timer :: due_entries now s0).
  { unfold due_entries. rewrite Hq0. rewrite filter_cons_True.
    2:{ unfold deadline. rewrite Ht. lia. }
    f_equal. symmetry. apply due_filter_ext. intros e _.
    by apply deadline_insert_same with tm. }
  assert (Hquiet0 : linked_timers_quiet C E now s0).
  { by apply (linked_timers_quiet_insert now s s0 timer tm (with_node false tm)). }
  assert (Ht0 : timers s0 !! timer = Some (with_node false tm))
    by apply popped_lookup.
  assert (Hstep : ∃ s2,
    requeue_periodic C now (0 <? periodic_time tm) timer s0 = Returns tt s2 ∧
    queue_ok s2 ∧ linked_timers_quiet C E now s2 ∧
    due_entries now s2 = due_entries now s0).
  { destruct (0 <? periodic_time tm) eqn:Hperiod.
    - apply N.ltb_lt in Hperiod.
      destruct (requeue_periodic_links C now s0 timer (with_node false tm))
        as (before & after & Hq & Hbefore & Hafter & Hreq);
        [apply Hok0|done|done|done|].
      eexists. split; [exact Hreq|]. split_and!.
      + eapply requeue_periodic_keeps; [exact Hok0|exact Hreq].
      + eapply (linked_timers_quiet_insert now s0 _ timer (with_node false tm));
          [done|done|reflexivity|].
        simpl. intros _. eauto.
      + eapply (link_due_entries now s0 _ timer (with_node false tm));
          [apply Hok0|done|done|exact Hq|reflexivity|reflexivity|].
        simpl. rewrite time_add_small by done. lia.
    - exists s0. split_and!; [|done|done|done].
      by apply requeue_periodic_not_periodic with (with_node false tm). }
  destruct Hstep as (s2 & Hreq & [Hwf2 Hsorted2] & Hquiet2 & Hdue2).
  destruct (IH (if decide (hint = INT_RESCHEDULE) then INT_RESCHEDULE else r)
              s2 Hwf2 Hsorted2 Hquiet2) as (r' & evs & s' & Hrest & Hfired & Hrest').
  { rewrite Hdue2. rewrite Hdue0 in Hfuel. simpl in Hfuel. lia. }
  exists r', (Fired timer s0 hint :: evs), s'. split_and!; [| |apply Hrest'..].
  - rewrite (timer_tick_loop_due _ _ _ _ _ _ timer tm) by (done || lia || auto).
    fold s0. unfold call at 1. rewrite Hcb.
    kstep ltac:(exact Hcall). kstep ltac:(exact Hreq). kstep ltac:(exact Hrest).
    reflexivity.
  - simpl. rewrite Hfired, Hdue0, Hdue2. done.
Qed.

End DispatchOrder.

Section LifecycleExtras.

Context (C : config).

Lemma filter_ne_middle (x : N) (before after : list N) :
  x ∉ before ++ after →
  filter (λ e, e ≠ x) (before ++ x :: after) = before ++ after.
Proof.
  intros Habs. rewrite filter_app, filter_cons_False by (intros ?; done).
  rewrite <- filter_app. by apply filter_ne_absent.
Qed.

Lemma timer_set_then_cancel s timer tm delay period cb a :
  queue_wf s →
  timers s !! timer = Some tm →
  (DEBUG_ASSERTS C = true → magic tm = TIMER_MAGIC C) →
  list_in_list tm = false →
  ∃ s1 s2,
    timer_set C timer delay period cb a s = Returns tt s1 ∧
    timer_cancel C timer s1 = Returns tt s2 ∧
    timer_queue s2 = timer_queue s ∧
    timers s2
    = <[timer := mk_timer (magic tm) false (time_add C (clock s) delay)
                   0 NULL NULL]> (timers s) ∧
    clock s2 = clock s ∧
    critical_section_count s2 = critical_section_count s.
Proof.
  intros Hwf Ht Hmagic Hnode.
  pose proof (wf_unlinked_absent s timer tm Hwf Ht Hnode) as Habs.
  destruct (timer_set_arms C s timer tm delay period cb a Hwf Ht Hmagic Hnode)
    as (before & after & Hq & _ & _ & Hset).
  set (tm1 := mk_timer (magic tm) true (time_add C (clock s) delay) period cb a) in *.
  eexists. 
  match type of Hset with _ = Returns tt ?s1 =>
    pose proof (timer_cancel_full C s1 timer tm1) as Hcancel
  end.
  eexists. split; [exact Hset|]. split; [apply Hcancel|].
  - apply lookup_insert_eq.
  - done.
  - simpl. apply queue_mapped_insert.
    pose proof (wf_mapped s Hwf) as Hmap. rewrite Hq in Hmap.
    unfold queue_mapped in *. rewrite Forall_app in Hmap.
    rewrite Forall_app, Forall_cons. split_and!; [apply Hmap| |apply Hmap].
    rewrite Ht. eauto.
  - simpl. split_and!; [|by rewrite insert_insert_eq|done|done].
    rewrite Hq. apply filter_ne_middle. by rewrite <- Hq.
Qed.

(** X6: arming a valid unlinked timer and cancelling it again gives back
    the queue exactly as it was; the timer ends unlinked with period,
    callback and argument cleared and with the deadline the arming gave it,
    the sum of the clock and the coerced delay in [lk_time_t] (wrapped
    around where it does not fit); no other timer has changed, and clock
    and critical section are as before. *)
Theorem timer_set_cancel_round_trip (s : kstate) (timer : addr) (tm : timer_t)
    (delay period cb a : N) :
  queue_wf s →
  timers s !! timer = Some tm →
  magic tm = TIMER_MAGIC C →
  list_in_list tm = false →
  (∃ s1 s2,
     timer_set_oneshot C timer delay cb a s = Returns tt s1 ∧
     timer_cancel C timer s1 = Returns tt s2 ∧
     timer_queue s2 = timer_queue s ∧
     timers s2 !! timer
     = Some (mk_timer (magic tm) false
               (time_add C (clock s) (N.max delay 1)) 0 NULL NULL) ∧
     (∀ t, t ≠ timer → timers s2 !! t = timers s !! t) ∧
     clock s2 = clock s ∧
     critical_section_count s2 = critical_section_count s) ∧
  (∃ s1 s2,
     timer_set_periodic C timer period cb a s = Returns tt s1 ∧
     timer_cancel C timer s1 = Returns tt s2 ∧
     timer_queue s2 = timer_queue s ∧
     timers s2 !! timer
     = Some (mk_timer (magic tm) false
               (time_add C (clock s) (N.max period 1)) 0 NULL NULL) ∧
     (∀ t, t ≠ timer → timers s2 !! t = timers s !! t) ∧
     clock s2 = clock s ∧
     critical_section_count s2 = critical_section_count s).
Proof.
  intros Hwf Ht Hmagic Hnode.
  assert (Hmax : ∀ d, (if d =? 0 then 1 else d) = N.max d 1).
  { intros d. destruct (N.eqb_spec d 0); lia. }
  split.
  - destruct (timer_set_then_cancel s timer tm (N.max delay 1) 0 cb a Hwf Ht
                (λ _, Hmagic) Hnode)
      as (s1 & s2 & Hset & Hcancel & Hq & Hts & Hclock & Hcsc).
    exists s1, s2. unfold timer_set_oneshot. rewrite Hmax.
    split_and!; try done.
    + rewrite Hts. apply lookup_insert_eq.
    + intros t Hne. rewrite Hts. by apply lookup_insert_ne.
  - destruct (timer_set_then_cancel s timer tm (N.max period 1)
                (N.max period 1) cb a Hwf Ht (λ _, Hmagic) Hnode)
      as (s1 & s2 & Hset & Hcancel & Hq & Hts & Hclock & Hcsc).
    exists s1, s2. unfold timer_set_periodic. rewrite Hmax.
    split_and!; try done.
    + rewrite Hts. apply lookup_insert_eq.
    + intros t Hne. rewrite Hts. by apply lookup_insert_ne.
Qed.

End LifecycleExtras.

Section PlatformTimer.

Context (C : config).

Lemma timer_set_head s timer tm delay period cb a :
  queue_wf s →
  timers s !! timer = Some tm →
  (DEBUG_ASSERTS C = true → magic tm = TIMER_MAGIC C) →
  list_in_list tm = false →
  ∃ s',
    timer_set C timer delay period cb a s = Returns tt s' ∧
    (head (timer_queue s') = Some timer ↔
       ∀ e, head (timer_queue s) = Some e →
            time_add C (clock s) delay < deadline (timers s) e) ∧
    platform_calls s'
    = (if PLATFORM_HAS_DYNAMIC_TIMER C
          && bool_decide (head (timer_queue s') = Some timer)
       then platform_set_oneshot_timer delay :: platform_calls s
       else platform_calls s).
Proof.
  intros Hwf Ht Hmagic Hnode.
  pose proof (wf_unlinked_absent s timer tm Hwf Ht Hnode) as Habs.
  destruct (timer_set_arms C s timer tm delay period cb a Hwf Ht Hmagic Hnode)
    as (before & after & Hq & Hbefore & Hafter & Hset).
  eexists. split; [exact Hset|]. simpl. split; [|done].
  destruct before as [|x before]; simpl in *.
  - split; [intros _|done]. rewrite Hq. exact Hafter.
  - rewrite Hq. simpl. apply Forall_cons in Hbefore as [Hx _]. split.
    + intros [= ->]. exfalso. apply Habs. rewrite Hq. by left.
    + intros Hall. specialize (Hall x eq_refl). lia.
Qed.

(** X7: arming a valid unlinked timer on a well-formed queue.  The new
    deadline is the sum of the clock and the coerced delay in [lk_time_t],
    wrapped around where it does not fit.  The timer becomes the head of
    the queue exactly when the queue was empty or its head was scheduled
    strictly later than the new deadline; a timer armed for the deadline
    of the head goes behind it.  On a dynamic-timer
    platform the platform timer is programmed, with the delay of the call,
    exactly when the timer has become the head; otherwise, and always on a
    fixed-tick platform, no platform call is made. *)
Theorem timer_set_programs_platform_timer (s : kstate) (timer : addr)
    (tm : timer_t) (delay period cb a : N) :
  queue_wf s →
  timers s !! timer = Some tm →
  magic tm = TIMER_MAGIC C →
  list_in_list tm = false →
  (∃ s',
     timer_set_oneshot C timer delay cb a s = Returns tt s' ∧
     (head (timer_queue s') = Some timer ↔
        ∀ e, head (timer_queue s) = Some e →
             time_add C (clock s) (N.max delay 1) < deadline (timers s) e) ∧
     platform_calls s'
     = (if PLATFORM_HAS_DYNAMIC_TIMER C
           && bool_decide (head (timer_queue s') = Some timer)
        then platform_set_oneshot_timer (N.max delay 1) :: platform_calls s
        else platform_calls s)) ∧
  (∃ s',
     timer_set_periodic C timer period cb a s = Returns tt s' ∧
     (head (timer_queue s') = Some timer ↔
        ∀ e, head (timer_queue s) = Some e →
             time_add C (clock s) (N.max period 1) < deadline (timers s) e) ∧
     platform_calls s'
     = (if PLATFORM_HAS_DYNAMIC_TIMER C
           && bool_decide (head (timer_queue s') = Some timer)
        then platform_set_oneshot_timer (N.max period 1) :: platform_calls s
        else platform_calls s)).
Proof.
  intros Hwf Ht Hmagic Hnode.
  assert (Hmax : ∀ d, (if d =? 0 then 1 else d) = N.max d 1).
  { intros d. destruct (N.eqb_spec d 0); lia. }
  split.
  - unfold timer_set_oneshot. rewrite Hmax.
    by apply (timer_set_head s timer tm).
  - unfold timer_set_periodic. rewrite Hmax.
    by apply (timer_set_head s timer tm).
Qed.

Lemma head_filter_ne (x e : N) (q : list N) :
  head q = Some e → e ≠ x → head (filter (λ y, y ≠ x) q) = Some e.
Proof.
  destruct q as [|y q]; [done|]. intros [= ->] Hne.
  by rewrite filter_cons_True.
Qed.

(** X8: what [timer_cancel] of a valid timer asks of the platform driver,
    on a well-formed queue.  On a fixed-tick platform, nothing.  On a
    dynamic-timer platform: [platform_stop_timer] when the queue is empty
    afterwards; nothing when the queue keeps its head, which is so whenever
    another timer is at the head; and when the head itself is cancelled and
    another timer follows, [platform_set_oneshot_timer] with the time left
    to that timer's deadline, zero if the deadline has passed. *)
Theorem timer_cancel_reprograms_platform_timer (s : kstate) (timer : addr)
    (tm : timer_t) :
  queue_wf s →
  timers s !! timer = Some tm →
  magic tm = TIMER_MAGIC C →
  ∃ s',
    timer_cancel C timer s = Returns tt s' ∧
    timer_queue s' = filter (λ e, e ≠ timer) (timer_queue s) ∧
    (PLATFORM_HAS_DYNAMIC_TIMER C = false →
     platform_calls s' = platform_calls s) ∧
    (PLATFORM_HAS_DYNAMIC_TIMER C = true →
     (timer_queue s' = [] →
      platform_calls s' = platform_stop_timer :: platform_calls s) ∧
     (∀ e, head (timer_queue s) = Some e → e ≠ timer →
      platform_calls s' = platform_calls s) ∧
     (∀ nh, head (timer_queue s) = Some timer →
            head (timer_queue s') = Some nh →
      platform_calls s'
      = platform_set_oneshot_timer
          (if deadline (timers s) nh <? clock s then 0
           else deadline (timers s) nh - clock s)
        :: platform_calls s)).
Proof.
  intros Hwf Ht Hmagic.
  pose proof (timer_cancel_full C s timer tm Ht (λ _, Hmagic)
                (wf_mapped s Hwf)) as Hrun. cbv zeta in Hrun.
  assert (Hq : (if list_in_list tm then filter (λ e, e ≠ timer) (timer_queue s)
                else timer_queue s)
               = filter (λ e, e ≠ timer) (timer_queue s)).
  { destruct (list_in_list tm) eqn:Hnode; [done|].
    symmetry. apply filter_ne_absent. by eapply wf_unlinked_absent. }
  rewrite Hq in Hrun.
  eexists. split; [exact Hrun|]. simpl. split; [done|]. split.
  - by intros ->.
  - intros ->. split_and!.
    + by intros ->.
    + intros e He Hne. rewrite (head_filter_ne timer e) by done.
      rewrite bool_decide_eq_false_2; [done|]. intros Hneq. by apply Hneq.
    + intros nh Hhd Hnh. rewrite Hnh.
      assert (Hne : nh ≠ timer).
      { intros ->. destruct (filter (λ e, e ≠ timer) (timer_queue s)) eqn:Hf;
          [done|]. injection Hnh as ->.
        assert (Hin : timer ∈ filter (λ e, e ≠ timer) (timer_queue s))
          by (rewrite Hf; by left).
        apply list_elem_of_filter in Hin as [? _]. done. }
      by rewrite bool_decide_eq_true_2 by (rewrite Hhd; congruence).
Qed.

(** X9: in a build with the assertions compiled in, a timer without the
    validity tag is a fatal error for [timer_set_oneshot],
    [timer_set_periodic] and [timer_cancel] alike, raised in the state of
    the call, before the critical section is entered and before any field
    or the queue is touched. *)
Theorem invalid_timer_panics (s : kstate) (timer : addr) (tm : timer_t)
    (delay period cb a : N) :
  DEBUG_ASSERTS C = true →
  timers s !! timer = Some tm →
  magic tm ≠ TIMER_MAGIC C →
  timer_set_oneshot C timer delay cb a s = Panic s ∧
  timer_set_periodic C timer period cb a s = Panic s ∧
  timer_cancel C timer s = Panic s.
Proof.
  intros Hdebug Ht Hmagic.
  assert (Hassert : DEBUG_ASSERTS C && negb (magic tm =? TIMER_MAGIC C) = true).
  { rewrite Hdebug. simpl. apply negb_true_iff. by apply N.eqb_neq. }
  assert (Hset : ∀ d p, timer_set C timer d p cb a s = Panic s).
  { intros d p. unfold timer_set. kstep ltac:(by apply load_returns).
    by apply bind_panic, DEBUG_ASSERT_fails. }
  split_and!; [apply Hset|apply Hset|].
  unfold timer_cancel. kstep ltac:(by apply load_returns).
  by apply bind_panic, DEBUG_ASSERT_fails.
Qed.

(** X11: [timer_initialize] makes any timer object that is not in the
    queue usable, whatever its memory held: the object then carries the
    validity tag and reads as unlinked with schedule, period, callback and
    argument zero, nothing else has changed, and a following
    [timer_set_oneshot] returns, in debug builds too, with the timer in the
    queue and armed for the sum [now + max delay 1] of [lk_time_t]. *)
Theorem timer_initialize_then_arm (s : kstate) (timer : addr) (garbage : timer_t)
    (delay cb a : N) :
  timers s !! timer = Some garbage →
  timer ∉ timer_queue s →
  queue_mapped (timers s) (timer_queue s) →
  ∃ s1 s2,
    timer_initialize C timer s = Returns tt s1 ∧
    timers s1 = <[timer := TIMER_INITIAL_VALUE C]> (timers s) ∧
    timer_queue s1 = timer_queue s ∧
    clock s1 = clock s ∧
    critical_section_count s1 = critical_section_count s ∧
    platform_calls s1 = platform_calls s ∧
    timer_set_oneshot C timer delay cb a s1 = Returns tt s2 ∧
    timers s2 !! timer
    = Some (mk_timer (TIMER_MAGIC C) true
              ((clock s + N.max delay 1) mod 2 ^ LK_TIME_BITS C) 0 cb a) ∧
    timer ∈ timer_queue s2.
Proof.
  intros Ht Habs Hmap.
  set (s1 := set_timers <[timer := TIMER_INITIAL_VALUE C]> s).
  destruct (timer_set_unlinked C s1 timer (TIMER_INITIAL_VALUE C)
              (N.max delay 1) 0 cb a)
    as (s2 & before & after & Hrun & _ & Hq & Hts & _).
  { apply lookup_insert_eq. }
  { done. }
  { done. }
  { by apply queue_mapped_insert. }
  exists s1, s2. split_and!; try done.
  - unfold timer_initialize. rewrite decide_False by done.
    by eapply store_returns.
  - unfold timer_set_oneshot.
    replace (if delay =? 0 then 1 else delay) with (N.max delay 1); [done|].
    destruct (N.eqb_spec delay 0); lia.
  - rewrite Hts. apply lookup_insert_eq.
  - rewrite Hq. apply elem_of_app. right. by left.
Qed.

End PlatformTimer.

Section DispatchErrors.

Context (C : config) (E : kernel).



(** X13: in a build with the assertions compiled in, a due head without
    the validity tag stops the drain loop with a panic in the state the
    loop has reached: the timer is still linked and its callback has not
    been called. *)
Theorem timer_tick_loop_invalid_head_panics (fuel : nat) (now : lk_time_t)
    (r : handler_return) (s : kstate) (timer : addr) (tm : timer_t) :
  DEBUG_ASSERTS C = true →
  head (timer_queue s) = Some timer →
  timers s !! timer = Some tm →
  scheduled_time tm ≤ now →
  magic tm ≠ TIMER_MAGIC C →
  timer_tick_loop C E (S fuel) now r s = Panic s ∧
  ∀ a, timer_tick C E (S fuel) a now s = Panic s.
Proof.
  intros Hdebug Hhd Ht Hdue Hmagic.
  assert (Hloop : ∀ r0, timer_tick_loop C E (S fuel) now r0 s = Panic s).
  { intros r0. simpl. kstep ltac:(reflexivity). rewrite Hhd.
    kstep ltac:(by apply load_returns).
    unfold TIME_LT. rewrite (proj2 (N.ltb_ge _ _) Hdue).
    apply bind_panic, DEBUG_ASSERT_fails. rewrite Hdebug. simpl.
    apply negb_true_iff. by apply N.eqb_neq. }
  split; [apply Hloop|]. intros a. unfold timer_tick.
  by apply bind_panic.
Qed.

End DispatchErrors.

Section CancelTwice.

Context (C : config).

Lemma cancelled_cancelled tm : cancelled (cancelled tm) = cancelled tm.
Proof. done. Qed.

(** X14: cancelling a timer a second time changes no timer and leaves the
    queue, the clock and the critical section as the first cancel left
    them; on a fixed-tick platform the state is the same altogether. *)
Theorem timer_cancel_twice (s : kstate) (timer : addr) (tm : timer_t) :
  queue_wf s →
  timers s !! timer = Some tm →
  magic tm = TIMER_MAGIC C →
  ∃ s1 s2,
    timer_cancel C timer s = Returns tt s1 ∧
    timer_cancel C timer s1 = Returns tt s2 ∧
    timers s2 = timers s1 ∧
    timer_queue s2 = timer_queue s1 ∧
    clock s2 = clock s1 ∧
    critical_section_count s2 = critical_section_count s1 ∧
    (PLATFORM_HAS_DYNAMIC_TIMER C = false → s2 = s1).
Proof.
  intros Hwf Ht Hmagic.
  pose proof (timer_cancel_full C s timer tm Ht (λ _, Hmagic)
                (wf_mapped s Hwf)) as Hrun1. cbv zeta in Hrun1.
  match type of Hrun1 with _ = Returns tt ?s1 =>
    pose proof (timer_cancel_full C s1 timer (cancelled tm)) as Hrun2
  end.
  cbv zeta in Hrun2.
  eexists _, _. split; [exact Hrun1|]. split; [apply Hrun2|].
  - apply lookup_insert_eq.
  - done.
  - simpl. apply queue_mapped_insert.
    destruct (list_in_list tm); [apply queue_mapped_filter|]; apply Hwf.
  - simpl. rewrite insert_insert_eq. split_and!; try done.
    intros ->. done.
Qed.

End CancelTwice.

(** ** The further properties on the sample kernel *)

Lemma armed_queue_sorted : queue_sorted (timers armed) (timer_queue armed).
Proof. repeat constructor; by vm_compute. Qed.

Lemma armed_linked_timers_quiet :
  linked_timers_quiet fixed_tick_build (sample_kernel fixed_tick_build) 10 armed.
Proof.
  intros t tm. simpl.
  rewrite !lookup_insert_Some, lookup_empty.
  intros [[<- <-]|[_ [[<- <-]|[_ [[<- <-]|[_ [[<- <-]|[_ [=]]]]]]]]]; simpl;
    intros Hn; try done.
  - split_and!; [done| |intros _; by vm_compute].
    exists (λ _ _ _, ret INT_NO_RESCHEDULE).
    split; [done|]. intros ? ? ? s. by exists INT_NO_RESCHEDULE.
  - split_and!; [done| |intros _; by vm_compute].
    exists (λ _ _ _, ret INT_RESCHEDULE).
    split; [done|]. intros ? ? ? s. by exists INT_RESCHEDULE.
Qed.

Lemma idle_all_unlinked : all_unlinked idle.
Proof.
  intros t tm. simpl. rewrite !lookup_insert_Some, lookup_empty.
  by intros [[_ <-]|[_ [[_ <-]|[_ [=]]]]].
Qed.

Lemma timer_set_keeps_queue_sorted_witness :
  (∃ s', timer_set_oneshot fixed_tick_build 4 0 100 0 armed = Returns tt s' ∧
         queue_wf s' ∧ queue_sorted (timers s') (timer_queue s')) ∧
  (∃ s', timer_set_periodic fixed_tick_build 4 7 100 0 armed = Returns tt s' ∧
         queue_wf s' ∧ queue_sorted (timers s') (timer_queue s')).
Proof.
  apply (timer_set_keeps_queue_sorted fixed_tick_build armed 4
           (TIMER_INITIAL_VALUE fixed_tick_build)).
  - apply armed_wf.
  - repeat constructor; by vm_compute.
  - reflexivity.
  - reflexivity.
  - reflexivity.
Defined.

Lemma timer_cancel_keeps_queue_sorted_witness :
  ∃ s', timer_cancel fixed_tick_build 2 armed = Returns tt s' ∧
        queue_wf s' ∧ queue_sorted (timers s') (timer_queue s') ∧
        timer_queue s' = filter (λ e, e ≠ 2) (timer_queue armed).
Proof.
  apply (timer_cancel_keeps_queue_sorted fixed_tick_build armed 2 periodic_timer).
  - apply armed_wf.
  - repeat constructor; by vm_compute.
  - reflexivity.
  - reflexivity.
Defined.

Lemma api_calls_from_init_keep_queue_sorted_witness :
  ∃ s',
    (timer_init ;; run_api_calls fixed_tick_build sample_calls) idle
    = Returns tt s' ∧
    queue_wf s' ∧ queue_sorted (timers s') (timer_queue s').
Proof.
  eexists.
  assert (Hrun : ∀ o,
            o = (timer_init ;; run_api_calls fixed_tick_build sample_calls) idle →
            (timer_init ;; run_api_calls fixed_tick_build sample_calls) idle = o)
    by (by intros ? ->).
  split.
  - apply Hrun. vm_compute. reflexivity.
  - eapply (api_calls_from_init_keep_queue_sorted fixed_tick_build idle).
    + apply idle_all_unlinked.
    + apply Hrun. vm_compute. reflexivity.
Defined.

Lemma timer_tick_loop_leaves_none_due_witness :
  ∃ r' evs s',
    timer_tick_loop fixed_tick_build (sample_kernel fixed_tick_build) 3 10
      INT_NO_RESCHEDULE armed = Returns (r', evs) s' ∧
    queue_wf s' ∧
    queue_sorted (timers s') (timer_queue s') ∧
    Forall (λ e, 10 < deadline (timers s') e) (timer_queue s').
Proof.
  eexists _, _, _.
  assert (Hrun : ∀ o, o = timer_tick_loop fixed_tick_build
                            (sample_kernel fixed_tick_build) 3 10
                            INT_NO_RESCHEDULE armed →
                 timer_tick_loop fixed_tick_build
                   (sample_kernel fixed_tick_build) 3 10
                   INT_NO_RESCHEDULE armed = o)
    by (by intros ? ->).
  split.
  - apply Hrun. vm_compute. reflexivity.
  - eapply (timer_tick_loop_leaves_none_due fixed_tick_build
              (sample_kernel fixed_tick_build) 3 10 INT_NO_RESCHEDULE armed).
    + apply sample_code_api_driven.
    + apply armed_wf.
    + repeat constructor; by vm_compute.
    + apply Hrun. vm_compute. reflexivity.
Defined.

Lemma drain_fires_due_entries_in_order_witness :
  ∃ r' evs s',
    timer_tick_loop fixed_tick_build (sample_kernel fixed_tick_build) 3 10
      INT_NO_RESCHEDULE armed = Returns (r', evs) s' ∧
    fired_timers evs = due_entries 10 armed ∧
    queue_wf s' ∧
    queue_sorted (timers s') (timer_queue s') ∧
    due_entries 10 s' = [].
Proof.
  apply (drain_fires_due_entries_in_order fixed_tick_build
           (sample_kernel fixed_tick_build) 3 10 INT_NO_RESCHEDULE armed).
  - apply armed_wf.
  - repeat constructor; by vm_compute.
  - apply armed_linked_timers_quiet.
  - vm_compute. lia.
Defined.

Lemma timer_set_cancel_round_trip_witness :
  (∃ s1 s2,
     timer_set_oneshot fixed_tick_build 4 0 100 0 armed = Returns tt s1 ∧
     timer_cancel fixed_tick_build 4 s1 = Returns tt s2 ∧
     timer_queue s2 = timer_queue armed ∧
     timers s2 !! 4 = Some (mk_timer 1953066354 false (10 + N.max 0 1) 0 NULL NULL) ∧
     (∀ t, t ≠ 4 → timers s2 !! t = timers armed !! t) ∧
     clock s2 = clock armed ∧
     critical_section_count s2 = critical_section_count armed) ∧
  (∃ s1 s2,
     timer_set_periodic fixed_tick_build 4 7 100 0 armed = Returns tt s1 ∧
     timer_cancel fixed_tick_build 4 s1 = Returns tt s2 ∧
     timer_queue s2 = timer_queue armed ∧
     timers s2 !! 4 = Some (mk_timer 1953066354 false (10 + N.max 7 1) 0 NULL NULL) ∧
     (∀ t, t ≠ 4 → timers s2 !! t = timers armed !! t) ∧
     clock s2 = clock armed ∧
     critical_section_count s2 = critical_section_count armed).
Proof.
  apply (timer_set_cancel_round_trip fixed_tick_build armed 4
           (TIMER_INITIAL_VALUE fixed_tick_build) 0 7 100 0).
  - apply armed_wf.
  - reflexivity.
  - reflexivity.
  - reflexivity.
Defined.

Lemma timer_set_programs_platform_timer_witness :
  (∃ s',
     timer_set_oneshot dynamic_build 3 0 100 0 armed
     = Returns tt s' ∧
     (head (timer_queue s') = Some 3 ↔
        ∀ e, head (timer_queue armed) = Some e →
             10 + N.max 0 1 < deadline (timers armed) e) ∧
     platform_calls s'
     = (if PLATFORM_HAS_DYNAMIC_TIMER dynamic_build
           && bool_decide (head (timer_queue s') = Some 3)
        then [platform_set_oneshot_timer (N.max 0 1)]
        else [])) ∧
  (∃ s',
     timer_set_periodic dynamic_build 3 2 100 0 armed
     = Returns tt s' ∧
     (head (timer_queue s') = Some 3 ↔
        ∀ e, head (timer_queue armed) = Some e →
             10 + N.max 2 1 < deadline (timers armed) e) ∧
     platform_calls s'
     = (if PLATFORM_HAS_DYNAMIC_TIMER dynamic_build
           && bool_decide (head (timer_queue s') = Some 3)
        then [platform_set_oneshot_timer (N.max 2 1)]
        else [])).
Proof.
  apply (timer_set_programs_platform_timer dynamic_build armed 3
           unlinked_timer 0 2 100 0).
  - apply armed_wf.
  - reflexivity.
  - reflexivity.
  - reflexivity.
Defined.

Lemma timer_cancel_reprograms_platform_timer_witness :
  ∃ s',
    timer_cancel dynamic_build 2 armed = Returns tt s' ∧
    timer_queue s' = filter (λ e, e ≠ 2) (timer_queue armed) ∧
    (PLATFORM_HAS_DYNAMIC_TIMER dynamic_build = false →
     platform_calls s' = platform_calls armed) ∧
    (PLATFORM_HAS_DYNAMIC_TIMER dynamic_build = true →
     (timer_queue s' = [] →
      platform_calls s' = platform_stop_timer :: platform_calls armed) ∧
     (∀ e, head (timer_queue armed) = Some e → e ≠ 2 →
      platform_calls s' = platform_calls armed) ∧
     (∀ nh, head (timer_queue armed) = Some 2 →
            head (timer_queue s') = Some nh →
      platform_calls s'
      = platform_set_oneshot_timer
          (if deadline (timers armed) nh <? clock armed then 0
           else deadline (timers armed) nh - clock armed)
        :: platform_calls armed)).
Proof.
  apply (timer_cancel_reprograms_platform_timer dynamic_build armed 2
           periodic_timer).
  - apply armed_wf.
  - reflexivity.
  - reflexivity.
Defined.

Lemma invalid_timer_panics_witness :
  timer_set_oneshot fixed_tick_build 1 5 100 0 blank = Panic blank ∧
  timer_set_periodic fixed_tick_build 1 3 100 0 blank = Panic blank ∧
  timer_cancel fixed_tick_build 1 blank = Panic blank.
Proof.
  apply (invalid_timer_panics fixed_tick_build blank 1
           (mk_timer 0 false 0 0 0 0)).
  - reflexivity.
  - reflexivity.
  - simpl. lia.
Defined.


Lemma timer_initialize_then_arm_witness :
  ∃ s1 s2,
    timer_initialize fixed_tick_build 1 blank = Returns tt s1 ∧
    timers s1 = <[1 := TIMER_INITIAL_VALUE fixed_tick_build]> (timers blank) ∧
    timer_queue s1 = timer_queue blank ∧
    clock s1 = clock blank ∧
    critical_section_count s1 = critical_section_count blank ∧
    platform_calls s1 = platform_calls blank ∧
    timer_set_oneshot fixed_tick_build 1 5 100 0 s1 = Returns tt s2 ∧
    timers s2 !! 1
    = Some (mk_timer (TIMER_MAGIC fixed_tick_build) true
              (clock blank + N.max 5 1) 0 100 0) ∧
    1 ∈ timer_queue s2.
Proof.
  apply (timer_initialize_then_arm fixed_tick_build blank 1
           (mk_timer 0 false 0 0 0 0) 5 100 0).
  - reflexivity.
  - apply not_elem_of_nil.
  - constructor.
Defined.

Lemma timer_tick_loop_invalid_head_panics_witness :
  timer_tick_loop fixed_tick_build (sample_kernel fixed_tick_build) 1 10
    INT_NO_RESCHEDULE corrupted = Panic corrupted ∧
  ∀ a, timer_tick fixed_tick_build (sample_kernel fixed_tick_build) 1 a 10
         corrupted = Panic corrupted.
Proof.
  apply (timer_tick_loop_invalid_head_panics fixed_tick_build
           (sample_kernel fixed_tick_build) 0 10 INT_NO_RESCHEDULE corrupted 1
           (mk_timer 0 true 5 0 100 0)).
  - reflexivity.
  - reflexivity.
  - reflexivity.
  - simpl. lia.
  - simpl. lia.
Defined.

Lemma timer_cancel_twice_witness :
  ∃ s1 s2,
    timer_cancel dynamic_build 2 armed = Returns tt s1 ∧
    timer_cancel dynamic_build 2 s1 = Returns tt s2 ∧
    timers s2 = timers s1 ∧
    timer_queue s2 = timer_queue s1 ∧
    clock s2 = clock s1 ∧
    critical_section_count s2 = critical_section_count s1 ∧
    (PLATFORM_HAS_DYNAMIC_TIMER dynamic_build = false → s2 = s1).
Proof.
  apply (timer_cancel_twice dynamic_build armed 2 periodic_timer).
  - apply armed_wf.
  - reflexivity.
  - reflexivity.
Defined.
